(** * Central index server of the P2P overlay ([control.py])

    A shallow embedding of the class [ServerOperations]: its three hash
    tables and the five handlers [registry], [update],
    [list_files_index_server], [search] and [deregistry], together with the
    command dispatch of [run].

    Python dictionaries are finite maps ([gmap]); Python lists are lists.
    Every list that a handler receives comes out of [json.loads] on one
    connection's payload, so it is a fresh object: no two table entries ever
    share a list, and a by-value model of the tables is exact.  The single
    place where the program mutates a list it is iterating over (the removal
    loops of [update] and [deregistry]) is modelled with the index-based
    protocol of Python's list iterator, see [for_live_entry]. *)

From Stdlib Require Import Ascii.
From stdpp Require Import gmap strings list fin_maps pretty.

Open Scope string_scope.
Open Scope list_scope.
Open Scope nat_scope.

(** ** Exceptions and the state-and-exception monad *)

(** The two exceptions the dictionary and list primitives used by the
    handlers can raise. *)
Inductive exn : Type :=
  | KeyError
  | ValueError.

Inductive outcome (A : Type) : Type :=
  | Return (a : A)
  | Raise (e : exn).
Arguments Return {A} a.
Arguments Raise {A} e.

(** The fields of [ServerOperations.__init__] that hold the index. *)
Record ServerOperations : Type := mkServer {
  hash_table_ports_peers : gmap Z string;
  hash_table_files : gmap string (list string);
  hash_table_peer_files : gmap string (list string)
}.

(** [self.hash_table_* = {}] *)
Definition init : ServerOperations :=
  {| hash_table_ports_peers := ∅;
     hash_table_files := ∅;
     hash_table_peer_files := ∅ |}.

(** A method body: it runs on [self], returns or raises, and leaves the
    tables as mutated so far (an exception undoes nothing). *)
Definition M (A : Type) : Type :=
  ServerOperations → outcome A * ServerOperations.

Definition ret {A} (a : A) : M A := λ s, (Return a, s).

Definition raise {A} (e : exn) : M A := λ s, (Raise e, s).

Definition bind {A B} (m : M A) (k : A → M B) : M B :=
  λ s, match m s with
       | (Return a, s') => k a s'
       | (Raise e, s') => (Raise e, s')
       end.

(** [try: m  except Exception as e: h] *)
Definition try_except {A} (m : M A) (h : M A) : M A :=
  λ s, match m s with
       | (Return a, s') => (Return a, s')
       | (Raise _, s') => h s'
       end.

Notation "'let!' x ':=' m 'in' k" := (bind m (λ x, k))
  (at level 10, x name, m at level 100, k at level 200).
Notation "m '>>' k" := (bind m (λ _, k))
  (at level 60, right associativity).

(** [for x in l: body x], for a list [l] that the body does not mutate. *)
Fixpoint for_each {X} (l : list X) (body : X → M unit) : M unit :=
  match l with
  | [] => ret tt
  | x :: l' => body x >> for_each l' body
  end.

(** ** List primitives *)

(** [l.remove(x)]: drops the first element equal to [x]; [None] stands for
    the [ValueError] raised when there is none. *)
Fixpoint list_remove (x : string) (l : list string) : option (list string) :=
  match l with
  | [] => None
  | y :: l' =>
      if decide (y = x) then Some l' else (y ::.) <$> list_remove x l'
  end.

(** ** Dictionary primitives on the three tables *)

Definition set_ports_peers (f : gmap Z string → gmap Z string) : M unit :=
  λ s, (Return tt,
        {| hash_table_ports_peers := f (hash_table_ports_peers s);
           hash_table_files := hash_table_files s;
           hash_table_peer_files := hash_table_peer_files s |}).

Definition set_files
    (f : gmap string (list string) → gmap string (list string)) : M unit :=
  λ s, (Return tt,
        {| hash_table_ports_peers := hash_table_ports_peers s;
           hash_table_files := f (hash_table_files s);
           hash_table_peer_files := hash_table_peer_files s |}).

Definition set_peer_files
    (f : gmap string (list string) → gmap string (list string)) : M unit :=
  λ s, (Return tt,
        {| hash_table_ports_peers := hash_table_ports_peers s;
           hash_table_files := hash_table_files s;
           hash_table_peer_files := f (hash_table_peer_files s) |}).

(** [k in self.hash_table_ports_peers] *)
Definition ports_peers_contains (k : Z) : M bool :=
  λ s, (Return (bool_decide (is_Some (hash_table_ports_peers s !! k))), s).

(** [k in self.hash_table_files] *)
Definition files_contains (k : string) : M bool :=
  λ s, (Return (bool_decide (is_Some (hash_table_files s !! k))), s).

(** [k in self.hash_table_peer_files] *)
Definition peer_files_contains (k : string) : M bool :=
  λ s, (Return (bool_decide (is_Some (hash_table_peer_files s !! k))), s).

(** [self.hash_table_files[k]], a [KeyError] when [k] is no key. *)
Definition files_getitem (k : string) : M (list string) :=
  λ s, match hash_table_files s !! k with
       | Some l => (Return l, s)
       | None => (Raise KeyError, s)
       end.

(** [self.hash_table_peer_files[k]] *)
Definition peer_files_getitem (k : string) : M (list string) :=
  λ s, match hash_table_peer_files s !! k with
       | Some l => (Return l, s)
       | None => (Raise KeyError, s)
       end.

(** [self.hash_table_files[k].append(x)] *)
Definition files_entry_append (k x : string) : M unit :=
  let! l := files_getitem k in set_files <[k := (l ++ [x])]>.

(** [self.hash_table_files[k].remove(x)] *)
Definition files_entry_remove (k x : string) : M unit :=
  let! l := files_getitem k in
  match list_remove x l with
  | Some l' => set_files <[k := l']>
  | None => raise ValueError
  end.

(** [self.hash_table_peer_files[k].append(x)] *)
Definition peer_files_entry_append (k x : string) : M unit :=
  let! l := peer_files_getitem k in set_peer_files <[k := (l ++ [x])]>.

(** [self.hash_table_peer_files[k].remove(x)] *)
Definition peer_files_entry_remove (k x : string) : M unit :=
  let! l := peer_files_getitem k in
  match list_remove x l with
  | Some l' => set_peer_files <[k := l']>
  | None => raise ValueError
  end.

(** ** Iterating over a table entry that the body mutates

    [for peer_id in self.hash_table_files[f]: body] iterates over the list
    object stored under [f] while the body removes elements from that very
    object.  Python's list iterator keeps an index [i]; before every round
    it compares [i] with the current length of the list, and it yields the
    element now at position [i].  The object stays the one stored under [f]
    until the body pops the key, which it does only once the list is empty,
    so a missing key is read as the empty list and ends the loop.

    The index grows by one each round and the body never lengthens the
    list, hence the loop makes at most as many rounds as the list is long
    when the loop starts: that length is the recursion bound
    (see [for_live_entry_fuel]). *)
Fixpoint for_live_entry (fuel i : nat) (f : string)
    (body : string → M unit) : M unit :=
  match fuel with
  | 0 => ret tt
  | S fuel' =>
      λ s, match default [] (hash_table_files s !! f) !! i with
           | None => (Return tt, s)
           | Some peer_id =>
               (body peer_id >> for_live_entry fuel' (S i) f body) s
           end
  end.

Definition for_peers_of (f : string) (body : string → M unit) : M unit :=
  let! l := files_getitem f in for_live_entry (length l) 0 f body.

(** ** The handlers *)

(** The decoded request of an [update] command. *)
Record peer_update : Type := mkUpdate {
  pu_peer_id : string;
  pu_task : string;
  pu_files : list string
}.

(** The decoded request of a [deregister] command. *)
Record peer_data : Type := mkDeregister {
  pd_peer_id : string;
  pd_hosting_port : Z;
  pd_files : list string
}.

(** [addr[0] + ":" + str(peer_port)] *)
Definition make_peer_id (addr : string * Z) (peer_port : Z) : string :=
  addr.1 +:+ ":" +:+ pretty peer_port.

(** [registry(self, addr, files, peer_port)], lines 63-86. *)
Definition registry (addr : string * Z) (files : list string)
    (peer_port : Z) : M bool :=
  try_except
    (set_ports_peers <[peer_port := addr.1]> >>
     let peer_id := make_peer_id addr peer_port in
     set_peer_files <[peer_id := files]> >>
     for_each files (λ f,
       let! present := files_contains f in
       if present : bool then files_entry_append f peer_id
       else set_files <[f := [peer_id]]>) >>
     ret true)
    (ret false).

(** The body of the removal loops, lines 110-113 and 164-167 (the same
    text in [update] and in [deregistry]). *)
Definition drop_if_equal (f target peer_id : string) : M unit :=
  if decide (peer_id = target) then
    files_entry_remove f peer_id >>
    let! l := files_getitem f in
    if decide (length l = 0) then set_files (delete f) else ret tt
  else ret tt.

(** [update(self, peer_update)], lines 88-117. *)
Definition update (pu : peer_update) : M bool :=
  try_except
    ((if decide (pu_task pu = "add") then
        for_each (pu_files pu) (λ f,
          peer_files_entry_append (pu_peer_id pu) f >>
          let! present := files_contains f in
          if present : bool then files_entry_append f (pu_peer_id pu)
          else set_files <[f := [pu_peer_id pu]]>)
      else ret tt) >>
     (if decide (pu_task pu = "rm") then
        for_each (pu_files pu) (λ f,
          peer_files_entry_remove (pu_peer_id pu) f >>
          let! present := files_contains f in
          if present : bool then
            for_peers_of f (drop_if_equal f (pu_peer_id pu))
          else ret tt)
      else ret tt) >>
     ret true)
    (ret false).

(** [list_files_index_server(self)], lines 119-130: the keys of
    [hash_table_files]; the [except] branch falls off the end of the
    method, which returns [None]. *)
Definition list_files_index_server : M (option (list string)) :=
  try_except
    (λ s, (Return (Some (map_to_list (hash_table_files s)).*1), s))
    (ret None).

(** [search(self, file_name)], lines 132-146. *)
Definition search (file_name : string) : M (option (list string)) :=
  try_except
    (let! present := files_contains file_name in
     let! peer_list :=
       (if present : bool then files_getitem file_name else ret []) in
     ret (Some peer_list))
    (ret None).

(** [deregistry(self, peer_data)], lines 148-171. *)
Definition deregistry (pd : peer_data) : M bool :=
  try_except
    ((let! present := ports_peers_contains (pd_hosting_port pd) in
      if present : bool then set_ports_peers (delete (pd_hosting_port pd))
      else ret tt) >>
     (let! present := peer_files_contains (pd_peer_id pd) in
      if present : bool then set_peer_files (delete (pd_peer_id pd))
      else ret tt) >>
     for_each (pd_files pd) (λ f,
       let! present := files_contains f in
       if present : bool then
         for_peers_of f (drop_if_equal f (pd_peer_id pd))
       else ret tt) >>
     ret true)
    (ret false).

(** ** Command dispatch of [run] *)

(** The decoded payload, by its [command] field (lines 192-241). *)
Inductive request : Type :=
  | Register (files : list string) (peer_port : Z)
  | Update (pu : peer_update)
  | List
  | Search (file_name : string)
  | Deregister (pd : peer_data).

(** The tables after one connection [(addr, request)] has been served. *)
Definition serve (s : ServerOperations) (c : (string * Z) * request)
    : ServerOperations :=
  match c.2 with
  | Register files peer_port => (registry c.1 files peer_port s).2
  | Update pu => (update pu s).2
  | List => (list_files_index_server s).2
  | Search file_name => (search file_name s).2
  | Deregister pd => (deregistry pd s).2
  end.

(** The tables after a sequence of connections, from the empty index. *)
Definition run (cs : list ((string * Z) * request)) : ServerOperations :=
  foldl serve init cs.

(** ** What the loops compute, as functions on the tables *)

(** One round of the registration loop (lines 79-82, 100-103) on
    [hash_table_files]. *)
Definition add_peer (peer_id f : string) (m : gmap string (list string))
    : gmap string (list string) :=
  match m !! f with
  | Some l => <[f := (l ++ [peer_id])]> m
  | None => <[f := [peer_id]]> m
  end.

(** An entry that received [n] appends of [peer_id]; untouched when [n]
    is zero, created when it was absent. *)
Definition appended (n : nat) (peer_id : string) (o : option (list string))
    : option (list string) :=
  match n with
  | 0 => o
  | S _ => Some (default [] o ++ replicate n peer_id)
  end.

(** Number of times [f] occurs in a request's file list. *)
Definition occurrences (f : string) (files : list string) : nat :=
  length (filter (λ g, g = f) files).

(** The removal loop on the list itself: the iterator index [i] runs over
    the list while equal elements are removed from it (first occurrence
    first, as [list.remove] does). *)
Fixpoint drop_scan (fuel i : nat) (target : string) (l : list string)
    : list string :=
  match fuel with
  | 0 => l
  | S fuel' =>
      match l !! i with
      | None => l
      | Some x =>
          if decide (x = target) then
            match list_remove x l with
            | Some l' => drop_scan fuel' (S i) target l'
            | None => l
            end
          else drop_scan fuel' (S i) target l
      end
  end.

(** Writing a scanned list back: an emptied entry is popped. *)
Definition store (f : string) (l : list string)
    (m : gmap string (list string)) : gmap string (list string) :=
  match l with
  | [] => delete f m
  | _ => <[f := l]> m
  end.

(** One round of the outer loop of [deregistry] (lines 162-167) on
    [hash_table_files]. *)
Definition drop_peer (peer_id : string) (m : gmap string (list string))
    (f : string) : gmap string (list string) :=
  match m !! f with
  | Some [] => m
  | Some l => store f (drop_scan (length l) 0 peer_id l) m
  | None => m
  end.

(** The tables with [g] applied to [hash_table_files]. *)
Definition on_files
    (g : gmap string (list string) → gmap string (list string))
    (s : ServerOperations) : ServerOperations :=
  {| hash_table_ports_peers := hash_table_ports_peers s;
     hash_table_files := g (hash_table_files s);
     hash_table_peer_files := hash_table_peer_files s |}.

(** ** Properties of states *)

(** No file name is mapped to an empty list of peers. *)
Definition files_nonempty (s : ServerOperations) : Prop :=
  ∀ f, hash_table_files s !! f ≠ Some [].

(** The peers listed under [f] (none when [f] is no key) and the files
    listed under [p]. *)
Definition peers_of (s : ServerOperations) (f : string) : list string :=
  default [] (hash_table_files s !! f).

Definition files_of (s : ServerOperations) (p : string) : list string :=
  default [] (hash_table_peer_files s !! p).

(** The invariant of the data model: the two tables mirror each other and
    neither holds an empty list. *)
Definition mirrored (s : ServerOperations) : Prop :=
  ∀ p f, f ∈ files_of s p ↔ p ∈ peers_of s f.

Definition index_invariant (s : ServerOperations) : Prop :=
  mirrored s
  ∧ (∀ f, hash_table_files s !! f ≠ Some [])
  ∧ (∀ p, hash_table_peer_files s !! p ≠ Some []).

(** Peer [p] is registered with exactly the files [fl]: [fl] is its entry
    in [hash_table_peer_files], and [hash_table_files] lists [p] under
    these files and no others. *)
Definition registered_with (s : ServerOperations) (p : string)
    (fl : list string) : Prop :=
  hash_table_peer_files s !! p = Some fl
  ∧ ∀ f, p ∈ peers_of s f ↔ f ∈ fl.

(** The tables [s] agree with [s0] on everything that does not belong to
    peer [p]: the ports, the other peers' entries, and the files under
    which each other peer is listed. *)
Definition others_kept (p : string) (s0 s : ServerOperations) : Prop :=
  hash_table_ports_peers s = hash_table_ports_peers s0
  ∧ (∀ q, q ≠ p →
       hash_table_peer_files s !! q = hash_table_peer_files s0 !! q)
  ∧ (∀ q f, q ≠ p → q ∈ peers_of s f ↔ q ∈ peers_of s0 f).

(** One round of the rm loop of [update], lines 107-113. *)
Definition rm_round (p f : string) : M unit :=
  peer_files_entry_remove p f >>
  let! present := files_contains f in
  if present : bool then for_peers_of f (drop_if_equal f p) else ret tt.

(** A register request as [run] hands it to [registry]: the address of
    the connection, and the [files] and [peer_port] fields. *)
Record registration : Type := mkRegistration {
  reg_addr : string * Z;
  reg_files : list string;
  reg_port : Z
}.

Definition reg_peer_id (r : registration) : string :=
  make_peer_id (reg_addr r) (reg_port r).

Definition reg_connection (r : registration) : (string * Z) * request :=
  (reg_addr r, Register (reg_files r) (reg_port r)).

(** The peer ID that a served connection registers, if it is a register
    request, and the peer IDs registered by a sequence of connections. *)
Definition registered_id (c : (string * Z) * request) : option string :=
  match c.2 with
  | Register _ peer_port => Some (make_peer_id c.1 peer_port)
  | _ => None
  end.

Definition registered_ids (cs : list ((string * Z) * request))
    : list string :=
  omap registered_id cs.

(** The peer is known to the tables: it has an entry or is listed under
    some file. *)
Definition known_peer (s : ServerOperations) (p : string) : Prop :=
  is_Some (hash_table_peer_files s !! p) ∨ ∃ f, p ∈ peers_of s f.

(** No character of the string is a colon. *)
Fixpoint colon_free (s : string) : Prop :=
  match s with
  | EmptyString => True
  | String c s' => c ≠ ":"%char ∧ colon_free s'
  end.

(** A method body keeps a property of the tables, whether it returns or
    raises. *)
Definition preserves (P : ServerOperations → Prop) {A} (m : M A) : Prop :=
  ∀ s, P s → P (m s).2.

(** * Proofs *)

(** ** The monad *)

Section preservation.
Context (P : ServerOperations → Prop).

Lemma preserves_ret {A} (a : A) : preserves P (ret a).
Proof. by intros s Hs. Qed.

Lemma preserves_raise {A} (e : exn) : preserves P (@raise A e).
Proof. by intros s Hs. Qed.

Lemma preserves_bind {A B} (m : M A) (k : A → M B) :
  preserves P m → (∀ a, preserves P (k a)) → preserves P (bind m k).
Proof.
  intros Hm Hk s Hs. unfold bind.
  specialize (Hm s Hs). destruct (m s) as [[a|e] s']; simpl in *.
  - by apply Hk.
  - done.
Qed.

Lemma preserves_try_except {A} (m h : M A) :
  preserves P m → preserves P h → preserves P (try_except m h).
Proof.
  intros Hm Hh s Hs. unfold try_except.
  specialize (Hm s Hs). destruct (m s) as [[a|e] s']; simpl in *.
  - done.
  - by apply Hh.
Qed.

Lemma preserves_for_each {X} (l : list X) (body : X → M unit) :
  (∀ x, preserves P (body x)) → preserves P (for_each l body).
Proof.
  intros Hbody. induction l as [|x l IH]; simpl.
  - apply preserves_ret.
  - apply preserves_bind; [apply Hbody | intros _; apply IH].
Qed.

Lemma preserves_if_decide {A} (Q : Prop) `{!Decision Q} (m1 m2 : M A) :
  preserves P m1 → preserves P m2 →
  preserves P (if decide Q then m1 else m2).
Proof. by destruct (decide Q). Qed.
End preservation.

(** ** Lists: [remove] and the scan of the removal loop *)

Lemma list_remove_elem (x : string) (l : list string) :
  x ∈ l → is_Some (list_remove x l).
Proof.
  induction l as [|y l IH]; [by intros ?%elem_of_nil|].
  intros Hx. simpl. destruct (decide (y = x)) as [->|Hne]; [by eexists|].
  apply elem_of_cons in Hx as [->|Hx]; [done|].
  destruct (IH Hx) as [l' ->]. by eexists.
Qed.

Lemma list_remove_notin (x : string) (l : list string) :
  x ∉ l → list_remove x l = None.
Proof.
  induction l as [|y l IH]; [done|].
  intros Hx. apply not_elem_of_cons in Hx as [Hne Hx]. simpl.
  rewrite decide_False by done. by rewrite IH.
Qed.

Lemma list_remove_length (x : string) (l l' : list string) :
  list_remove x l = Some l' → length l = S (length l').
Proof.
  revert l'. induction l as [|y l IH]; intros l'; [done|]. simpl.
  destruct (decide (y = x)); [by intros [= ->]|].
  destruct (list_remove x l) as [l1|]; [|done].
  intros [= <-]. simpl. by rewrite (IH l1).
Qed.

(** Removing the only occurrence, which is the last element. *)
Lemma list_remove_last (x : string) (l : list string) :
  x ∉ l → list_remove x (l ++ [x]) = Some l.
Proof.
  induction l as [|y l IH]; intros Hx; simpl.
  - by rewrite decide_True.
  - apply not_elem_of_cons in Hx as [Hne Hx].
    rewrite decide_False by done. by rewrite IH.
Qed.

(** The index passes the end of the list: the iterator is exhausted. *)
Lemma drop_scan_exhausted (fuel i : nat) (target : string)
    (l : list string) :
  length l ≤ i → drop_scan fuel i target l = l.
Proof.
  intros Hi. destruct fuel; [done|]. simpl.
  by rewrite (proj2 (lookup_ge_None l i) Hi).
Qed.

(** Any bound that covers the rest of the list gives the same scan: the
    length of the list at the start of the loop is enough. *)
Lemma drop_scan_fuel (fuel fuel' i : nat) (target : string)
    (l : list string) :
  length l ≤ fuel + i → length l ≤ fuel' + i →
  drop_scan fuel i target l = drop_scan fuel' i target l.
Proof.
  revert fuel' i l. induction fuel as [|fuel IH]; intros fuel' i l H1 H2.
  - by rewrite !drop_scan_exhausted by lia.
  - destruct fuel' as [|fuel'].
    { by rewrite !drop_scan_exhausted by lia. }
    simpl. destruct (l !! i) as [x|] eqn:Hx; [|done].
    destruct (decide (x = target)) as [->|Hne].
    + destruct (list_remove target l) as [l1|] eqn:Hl1; [|done].
      apply list_remove_length in Hl1. apply IH; lia.
    + apply IH; lia.
Qed.

(** A peer that is listed once, at the end, is removed by the scan and
    nothing else is. *)
Lemma drop_scan_last (fuel i : nat) (target : string)
    (l : list string) :
  target ∉ l → i ≤ length l → length l < fuel + i →
  drop_scan fuel i target (l ++ [target]) = l.
Proof.
  revert i. induction fuel as [|fuel IH]; intros i Hnot Hi Hfuel; [lia|].
  simpl. destruct (decide (i = length l)) as [->|Hlt].
  - rewrite list_lookup_middle by done. rewrite decide_True by done.
    rewrite list_remove_last by done. apply drop_scan_exhausted. lia.
  - assert (i < length l) as Hi' by lia.
    rewrite lookup_app_l by done.
    destruct (lookup_lt_is_Some_2 l i Hi') as [x Hx]. rewrite Hx.
    rewrite decide_False.
    + apply IH; [done|lia|lia].
    + intros ->. apply Hnot. by eapply list_elem_of_lookup_2.
Qed.

(** A list without the peer comes out of the scan unchanged. *)
Lemma drop_scan_absent (fuel i : nat) (target : string)
    (l : list string) :
  target ∉ l → drop_scan fuel i target l = l.
Proof.
  revert i. induction fuel as [|fuel IH]; intros i Hnot; [done|]. simpl.
  destruct (l !! i) as [x|] eqn:Hx; [|done].
  rewrite decide_False; [by apply IH|].
  intros ->. apply Hnot. by eapply list_elem_of_lookup_2.
Qed.

(** ** The registration loop *)

Lemma on_files_same
    (g : gmap string (list string) → gmap string (list string))
    (s : ServerOperations) :
  g (hash_table_files s) = hash_table_files s → on_files g s = s.
Proof. destruct s as [pp fs pf]. unfold on_files. simpl. by intros ->. Qed.

(** Lines 79-82: one round appends the peer or creates the entry. *)
Lemma register_round (peer_id f : string) (s : ServerOperations) :
  (let! present := files_contains f in
   if present : bool then files_entry_append f peer_id
   else set_files <[f := [peer_id]]>) s
  = (Return tt, on_files (add_peer peer_id f) s).
Proof.
  unfold bind, files_contains, files_entry_append, bind, files_getitem,
    set_files, on_files, add_peer.
  destruct (hash_table_files s !! f) as [l|] eqn:E; simpl; by rewrite ?E.
Qed.

Lemma register_loop (peer_id : string) (files : list string)
    (s : ServerOperations) :
  for_each files (λ f,
    let! present := files_contains f in
    if present : bool then files_entry_append f peer_id
    else set_files <[f := [peer_id]]>) s
  = (Return tt,
     on_files (λ m, foldl (λ m f, add_peer peer_id f m) m files) s).
Proof.
  revert s. induction files as [|f files IH]; intros s; simpl.
  - unfold ret. by rewrite on_files_same.
  - unfold bind at 1. rewrite register_round. by rewrite IH.
Qed.

Lemma appended_step (n : nat) (peer_id : string) (o : option (list string)) :
  appended n peer_id (appended 1 peer_id o) = appended (S n) peer_id o.
Proof.
  destruct n as [|n]; [done|]. unfold appended. simpl.
  by rewrite <-app_assoc.
Qed.

Lemma lookup_add_peer (peer_id f g : string) (m : gmap string (list string)) :
  add_peer peer_id f m !! g
  = if decide (f = g) then appended 1 peer_id (m !! g) else m !! g.
Proof.
  unfold add_peer. destruct (decide (f = g)) as [->|Hne].
  - destruct (m !! g) as [l|] eqn:E; by rewrite lookup_insert_eq.
  - destruct (m !! f); by rewrite lookup_insert_ne.
Qed.

(** After the loop, a file's entry has received one append of the peer for
    each occurrence of the file in the request. *)
Lemma lookup_add_peers (peer_id g : string) (files : list string)
    (m : gmap string (list string)) :
  foldl (λ m f, add_peer peer_id f m) m files !! g
  = appended (occurrences g files) peer_id (m !! g).
Proof.
  revert m. induction files as [|f files IH]; intros m; [done|]. simpl.
  rewrite IH, lookup_add_peer. unfold occurrences. rewrite filter_cons.
  destruct (decide (f = g)) as [->|Hne].
  - rewrite appended_step. done.
  - done.
Qed.

Lemma registry_spec (addr : string * Z) (files : list string) (peer_port : Z)
    (s : ServerOperations) :
  registry addr files peer_port s
  = (Return true,
     {| hash_table_ports_peers :=
          <[peer_port := addr.1]> (hash_table_ports_peers s);
        hash_table_files :=
          foldl (λ m f, add_peer (make_peer_id addr peer_port) f m)
            (hash_table_files s) files;
        hash_table_peer_files :=
          <[make_peer_id addr peer_port := files]>
            (hash_table_peer_files s) |}).
Proof.
  unfold registry, try_except.
  unfold bind at 1. unfold set_ports_peers at 1.
  unfold bind at 1. unfold set_peer_files at 1.
  unfold bind at 1. rewrite register_loop. done.
Qed.

(** ** The removal loop *)

Lemma store_same (f : string) (l : list string)
    (m : gmap string (list string)) :
  m !! f = Some l → l ≠ [] → store f l m = m.
Proof. intros Hf Hl. destruct l; [done|]. by apply insert_id. Qed.

Lemma store_insert (f : string) (l l1 : list string)
    (m : gmap string (list string)) :
  store f l (<[f := l1]> m) = store f l m.
Proof.
  destruct l; simpl; [apply delete_insert_eq | apply insert_insert_eq].
Qed.

Lemma on_files_on_files
    (g h : gmap string (list string) → gmap string (list string))
    (s : ServerOperations) :
  on_files g (on_files h s) = on_files (λ m, g (h m)) s.
Proof. done. Qed.

Lemma on_files_ext
    (g h : gmap string (list string) → gmap string (list string))
    (s : ServerOperations) :
  g (hash_table_files s) = h (hash_table_files s) →
  on_files g s = on_files h s.
Proof. unfold on_files. by intros ->. Qed.

(** Once the key is popped the iterator finds its list empty. *)
Lemma for_live_entry_absent (fuel i : nat) (f : string)
    (body : string → M unit) (s : ServerOperations) :
  hash_table_files s !! f = None →
  for_live_entry fuel i f body s = (Return tt, s).
Proof. intros Hf. destruct fuel; [done|]. simpl. by rewrite Hf. Qed.

(** Lines 110-113 and 164-167 on an element that the iterator yielded. *)
Lemma drop_round (f target x : string) (l : list string)
    (s : ServerOperations) :
  hash_table_files s !! f = Some l → x ∈ l →
  drop_if_equal f target x s
  = (Return tt,
     if decide (x = target)
     then on_files (store f (default [] (list_remove x l))) s
     else s).
Proof.
  intros Hf Hx. unfold drop_if_equal.
  destruct (decide (x = target)) as [->|Hne]; [|done].
  destruct (list_remove_elem target l Hx) as [l1 Hl1].
  unfold bind at 1. unfold files_entry_remove.
  unfold bind at 1. unfold files_getitem at 1. rewrite Hf, Hl1. simpl.
  unfold bind, files_getitem. simpl. rewrite lookup_insert_eq.
  destruct l1 as [|y l1]; simpl.
  - unfold set_files, on_files. simpl. by rewrite delete_insert_eq.
  - done.
Qed.

(** The loop of lines 109-113 and 163-167 scans the entry and writes the
    result back, popping the key when nothing is left. *)
Lemma removal_loop (f target : string) (fuel i : nat) (l : list string)
    (s : ServerOperations) :
  hash_table_files s !! f = Some l → l ≠ [] →
  for_live_entry fuel i f (drop_if_equal f target) s
  = (Return tt, on_files (store f (drop_scan fuel i target l)) s).
Proof.
  revert i l s. induction fuel as [|fuel IH]; intros i l s Hf Hl.
  - simpl. unfold ret. by rewrite on_files_same by by apply store_same.
  - simpl. rewrite Hf. simpl.
    destruct (l !! i) as [x|] eqn:Hx.
    + assert (x ∈ l) as Hin by by eapply list_elem_of_lookup_2.
      unfold bind. rewrite (drop_round f target x l s Hf Hin).
      destruct (decide (x = target)) as [->|Hne]; [|by apply IH].
      destruct (list_remove_elem target l Hin) as [l1 ->]. simpl.
      destruct l1 as [|y l1].
      * rewrite for_live_entry_absent by apply lookup_delete_eq.
        by rewrite drop_scan_exhausted by (simpl; lia).
      * rewrite (IH (S i) (y :: l1)); [|apply lookup_insert_eq|done].
        rewrite on_files_on_files. f_equal. apply on_files_ext.
        apply store_insert.
    + by rewrite on_files_same by by apply store_same.
Qed.

(** The bound that [for_peers_of] passes, the length of the entry when the
    loop starts, is enough: a larger one gives the same run. *)
Lemma for_live_entry_fuel (f target : string) (l : list string) (k : nat)
    (s : ServerOperations) :
  hash_table_files s !! f = Some l →
  for_live_entry (length l + k) 0 f (drop_if_equal f target) s
  = for_live_entry (length l) 0 f (drop_if_equal f target) s.
Proof.
  intros Hf. destruct (decide (l = [])) as [->|Hl].
  - destruct k; simpl; [done|]. by rewrite Hf.
  - rewrite !(removal_loop f target _ 0 l s Hf Hl).
    by rewrite (drop_scan_fuel (length l + k) (length l)) by lia.
Qed.

(** Lines 108-113 and 162-167: the guarded loop on one file. *)
Lemma drop_peer_round (f target : string) (s : ServerOperations) :
  (let! present := files_contains f in
   if present : bool then for_peers_of f (drop_if_equal f target)
   else ret tt) s
  = (Return tt, on_files (λ m, drop_peer target m f) s).
Proof.
  unfold bind at 1. unfold files_contains, drop_peer.
  destruct (hash_table_files s !! f) as [l|] eqn:Hf; simpl.
  - unfold for_peers_of, bind, files_getitem. rewrite Hf.
    destruct (decide (l = [])) as [->|Hl].
    + simpl. unfold ret. rewrite on_files_same; [done|by rewrite Hf].
    + rewrite (removal_loop f target _ 0 l s Hf Hl).
      f_equal. apply on_files_ext. rewrite Hf. by destruct l.
  - unfold ret. rewrite on_files_same; [done|by rewrite Hf].
Qed.

Lemma drop_peer_loop (target : string) (files : list string)
    (s : ServerOperations) :
  for_each files (λ f,
    let! present := files_contains f in
    if present : bool then for_peers_of f (drop_if_equal f target)
    else ret tt) s
  = (Return tt, on_files (λ m, foldl (drop_peer target) m files) s).
Proof.
  revert s. induction files as [|f files IH]; intros s; simpl.
  - unfold ret. by rewrite on_files_same.
  - unfold bind at 1. rewrite drop_peer_round. by rewrite IH.
Qed.

(** [deregistry] never raises: it returns [True] on the tables below. *)
Lemma deregistry_spec (pd : peer_data) (s : ServerOperations) :
  deregistry pd s
  = (Return true,
     {| hash_table_ports_peers :=
          delete (pd_hosting_port pd) (hash_table_ports_peers s);
        hash_table_files :=
          foldl (drop_peer (pd_peer_id pd)) (hash_table_files s) (pd_files pd);
        hash_table_peer_files :=
          delete (pd_peer_id pd) (hash_table_peer_files s) |}).
Proof.
  unfold deregistry, try_except.
  unfold bind at 1. unfold bind at 1. unfold ports_peers_contains at 1.
  assert (∀ (b : bool) (s0 : ServerOperations),
    hash_table_ports_peers s0 !! pd_hosting_port pd = None ∨ b = true →
    (if b then set_ports_peers (delete (pd_hosting_port pd)) else ret tt) s0
    = set_ports_peers (delete (pd_hosting_port pd)) s0) as Hports.
  { intros [] s0 H0; [done|]. destruct H0 as [H0|]; [|done].
    unfold ret, set_ports_peers. rewrite delete_id by done. by destruct s0. }
  rewrite Hports; cycle 1.
  { destruct (hash_table_ports_peers s !! pd_hosting_port pd) eqn:E;
      [right|left]; [|done]. apply bool_decide_eq_true_2. by eexists. }
  unfold set_ports_peers at 1.
  unfold bind at 1. unfold bind at 1. unfold peer_files_contains at 1.
  assert (∀ (b : bool) (s0 : ServerOperations),
    hash_table_peer_files s0 !! pd_peer_id pd = None ∨ b = true →
    (if b then set_peer_files (delete (pd_peer_id pd)) else ret tt) s0
    = set_peer_files (delete (pd_peer_id pd)) s0) as Hpeers.
  { intros [] s0 H0; [done|]. destruct H0 as [H0|]; [|done].
    unfold ret, set_peer_files. rewrite delete_id by done. by destruct s0. }
  rewrite Hpeers; cycle 1.
  { simpl. destruct (hash_table_peer_files s !! pd_peer_id pd) eqn:E;
      [right|left]; [|done]. apply bool_decide_eq_true_2. by eexists. }
  unfold set_peer_files at 1.
  unfold bind at 1. rewrite drop_peer_loop. done.
Qed.

(** ** [update] *)

(** Lines 98-103 for a registered peer: nothing raises; the files are
    appended to the peer's entry and the peer to each file's entry. *)
Lemma update_add_loop (p : string) (files l : list string)
    (s : ServerOperations) :
  hash_table_peer_files s !! p = Some l →
  for_each files (λ f,
    peer_files_entry_append p f >>
    let! present := files_contains f in
    if present : bool then files_entry_append f p
    else set_files <[f := [p]]>) s
  = (Return tt,
     {| hash_table_ports_peers := hash_table_ports_peers s;
        hash_table_files :=
          foldl (λ m f, add_peer p f m) (hash_table_files s) files;
        hash_table_peer_files :=
          <[p := l ++ files]> (hash_table_peer_files s) |}).
Proof.
  revert l s. induction files as [|f files IH]; intros l s Hp; simpl.
  - unfold ret. rewrite app_nil_r, insert_id by done. by destruct s.
  - unfold bind at 1. unfold bind at 1.
    unfold peer_files_entry_append, bind, peer_files_getitem. rewrite Hp.
    unfold set_peer_files at 1.
    pose proof (register_round p f) as Hround. unfold bind in Hround.
    rewrite Hround.
    rewrite (IH (l ++ [f])) by apply lookup_insert_eq. simpl.
    by rewrite insert_insert_eq, <-app_assoc.
Qed.

Lemma update_add_spec (p : string) (files l : list string)
    (s : ServerOperations) :
  hash_table_peer_files s !! p = Some l →
  update (mkUpdate p "add" files) s
  = (Return true,
     {| hash_table_ports_peers := hash_table_ports_peers s;
        hash_table_files :=
          foldl (λ m f, add_peer p f m) (hash_table_files s) files;
        hash_table_peer_files :=
          <[p := l ++ files]> (hash_table_peer_files s) |}).
Proof.
  intros Hp. unfold update, try_except. simpl.
  unfold bind at 1. rewrite (update_add_loop p files l s Hp). done.
Qed.

(** Lines 106-113 for one file that the peer's entry holds. *)
Lemma update_rm_one (p f : string) (l l' : list string)
    (s : ServerOperations) :
  hash_table_peer_files s !! p = Some l →
  list_remove f l = Some l' →
  update (mkUpdate p "rm" [f]) s
  = (Return true,
     {| hash_table_ports_peers := hash_table_ports_peers s;
        hash_table_files := drop_peer p (hash_table_files s) f;
        hash_table_peer_files := <[p := l']> (hash_table_peer_files s) |}).
Proof.
  intros Hp Hl. unfold update, try_except. simpl.
  unfold bind at 1. unfold bind at 1. unfold ret at 1.
  unfold bind at 1. unfold bind at 1.
  unfold peer_files_entry_remove, bind, peer_files_getitem.
  rewrite Hp, Hl. unfold set_peer_files at 1.
  pose proof (drop_peer_round f p) as Hround. unfold bind in Hround.
  rewrite Hround. done.
Qed.

(** An update for a peer without an entry raises [KeyError] on the first
    file, before anything is written; with no file there is nothing to
    raise. *)
Lemma update_unknown_peer (pu : peer_update) (s : ServerOperations) :
  pu_task pu = "add" ∨ pu_task pu = "rm" →
  hash_table_peer_files s !! pu_peer_id pu = None →
  update pu s = (Return (bool_decide (pu_files pu = [])), s).
Proof.
  intros Htask Hp. destruct pu as [p task files]. simpl in *.
  unfold update, try_except. simpl.
  destruct Htask as [-> | ->]; simpl.
  - destruct files as [|f files]; simpl; [done|].
    unfold bind at 1. unfold bind at 1. unfold bind at 1.
    unfold peer_files_entry_append, bind, peer_files_getitem.
    by rewrite Hp.
  - destruct files as [|f files]; simpl; [done|].
    unfold bind at 1. unfold bind at 1. unfold ret at 1.
    unfold bind at 1. unfold bind at 1.
    unfold peer_files_entry_remove, bind, peer_files_getitem.
    by rewrite Hp.
Qed.

(** ** No file is left with an empty list of peers *)

Lemma nonempty_add_peer (p f : string) (m : gmap string (list string)) :
  (∀ g, m !! g ≠ Some []) → ∀ g, add_peer p f m !! g ≠ Some [].
Proof.
  intros Hm g. rewrite lookup_add_peer. destruct (decide (f = g)); [|done].
  simpl. intros [= H]. by apply app_nil in H as [_ ?].
Qed.

Lemma nonempty_store (f : string) (l : list string)
    (m : gmap string (list string)) :
  (∀ g, m !! g ≠ Some []) → ∀ g, store f l m !! g ≠ Some [].
Proof.
  intros Hm g. destruct l as [|x l]; simpl.
  - rewrite lookup_delete. by destruct (decide (f = g)).
  - rewrite lookup_insert. by destruct (decide (f = g)).
Qed.

Lemma nonempty_drop_peer (p f : string) (m : gmap string (list string)) :
  (∀ g, m !! g ≠ Some []) → ∀ g, drop_peer p m f !! g ≠ Some [].
Proof.
  intros Hm. unfold drop_peer. destruct (m !! f) as [[|x l]|]; [done| |done].
  by apply nonempty_store.
Qed.

Lemma files_nonempty_on_files
    (g : gmap string (list string) → gmap string (list string))
    (s : ServerOperations) :
  (∀ m, (∀ f, m !! f ≠ Some []) → ∀ f, g m !! f ≠ Some []) →
  files_nonempty s → files_nonempty (on_files g s).
Proof. intros Hg Hs f. simpl. apply Hg. apply Hs. Qed.

(** A body that leaves [hash_table_files] alone keeps the property. *)
Lemma files_nonempty_frame {A} (m : M A) :
  (∀ s, hash_table_files (m s).2 = hash_table_files s) →
  preserves files_nonempty m.
Proof. intros Hm s Hs f. rewrite Hm. apply Hs. Qed.

Lemma peer_files_entry_append_files (p f : string) (s : ServerOperations) :
  hash_table_files (peer_files_entry_append p f s).2 = hash_table_files s.
Proof.
  unfold peer_files_entry_append, bind, peer_files_getitem.
  by destruct (hash_table_peer_files s !! p).
Qed.

Lemma peer_files_entry_remove_files (p f : string) (s : ServerOperations) :
  hash_table_files (peer_files_entry_remove p f s).2 = hash_table_files s.
Proof.
  unfold peer_files_entry_remove, bind, peer_files_getitem.
  destruct (hash_table_peer_files s !! p) as [l|]; [|done].
  by destruct (list_remove f l).
Qed.

Lemma registry_files_nonempty (addr : string * Z) (files : list string)
    (peer_port : Z) :
  preserves files_nonempty (registry addr files peer_port).
Proof.
  intros s Hs. rewrite registry_spec. unfold files_nonempty. simpl.
  revert Hs. unfold files_nonempty. generalize (hash_table_files s).
  induction files as [|f files IH]; intros m Hm; [done|]. simpl.
  apply IH. by apply nonempty_add_peer.
Qed.

Lemma deregistry_files_nonempty (pd : peer_data) :
  preserves files_nonempty (deregistry pd).
Proof.
  intros s Hs. rewrite deregistry_spec. unfold files_nonempty. simpl.
  revert Hs. unfold files_nonempty. generalize (hash_table_files s).
  induction (pd_files pd) as [|f files IH]; intros m Hm; [done|]. simpl.
  apply IH. by apply nonempty_drop_peer.
Qed.

Lemma update_files_nonempty (pu : peer_update) :
  preserves files_nonempty (update pu).
Proof.
  unfold update. apply preserves_try_except; [|apply preserves_ret].
  apply preserves_bind; [|intros _; apply preserves_bind].
  - apply preserves_if_decide; [|apply preserves_ret].
    apply preserves_for_each. intros f. apply preserves_bind.
    + apply files_nonempty_frame, peer_files_entry_append_files.
    + intros _ s Hs. pose proof (register_round (pu_peer_id pu) f s) as H.
      unfold bind in H. unfold bind. rewrite H.
      apply files_nonempty_on_files; [|done]. apply nonempty_add_peer.
  - apply preserves_if_decide; [|apply preserves_ret].
    apply preserves_for_each. intros f. apply preserves_bind.
    + apply files_nonempty_frame, peer_files_entry_remove_files.
    + intros _ s Hs. pose proof (drop_peer_round f (pu_peer_id pu) s) as H.
      unfold bind in H. unfold bind. rewrite H.
      apply files_nonempty_on_files; [|done].
      intros m Hm. by apply nonempty_drop_peer.
  - intros _. apply preserves_ret.
Qed.

Lemma search_spec (file_name : string) (s : ServerOperations) :
  search file_name s = (Return (Some (peers_of s file_name)), s).
Proof.
  unfold search, try_except, bind, files_contains, files_getitem, ret,
    peers_of.
  destruct (hash_table_files s !! file_name) as [l|] eqn:E; simpl.
  - by rewrite E.
  - done.
Qed.

Lemma serve_files_nonempty (s : ServerOperations)
    (c : (string * Z) * request) :
  files_nonempty s → files_nonempty (serve s c).
Proof.
  destruct c as [addr [files peer_port|pu| |file_name|pd]];
    unfold serve; simpl.
  - apply registry_files_nonempty.
  - apply update_files_nonempty.
  - done.
  - by rewrite search_spec.
  - apply deregistry_files_nonempty.
Qed.

Lemma run_snoc (cs : list ((string * Z) * request))
    (c : (string * Z) * request) :
  run (cs ++ [c]) = serve (run cs) c.
Proof. unfold run. by rewrite foldl_app. Qed.

Lemma run_files_nonempty (cs : list ((string * Z) * request)) :
  files_nonempty (run cs).
Proof.
  induction cs as [|c cs IH] using rev_ind.
  - intros f. unfold run. simpl. by rewrite lookup_empty.
  - rewrite run_snoc. by apply serve_files_nonempty.
Qed.

(** * The claims *)

Lemma occurrences_pos (f : string) (files : list string) :
  f ∈ files ↔ 0 < occurrences f files.
Proof.
  unfold occurrences. split.
  - intros Hf.
    assert (f ∈ filter (λ g, g = f) files) as Hin
      by by apply list_elem_of_filter.
    destruct (filter (λ g, g = f) files); [by apply elem_of_nil in Hin|].
    simpl. lia.
  - intros Hlen.
    destruct (filter (λ g, g = f) files) as [|x l] eqn:E;
      [simpl in Hlen; lia|].
    assert (x ∈ filter (λ g, g = f) files) as Hx
      by (rewrite E; apply list_elem_of_here).
    by apply list_elem_of_filter in Hx as [-> ?].
Qed.

(** C1, as the code has it: in every state that a sequence of register,
    update, list, search and deregister requests reaches from the empty
    index, no file name of [hash_table_files] is mapped to an empty list of
    peers. *)
Theorem reachable_files_nonempty (cs : list ((string * Z) * request)) :
  files_nonempty (run cs).
Proof. apply run_files_nonempty. Qed.

(** C1 as stated fails.  Registering a peer with an empty file list leaves
    the peer mapped to an empty list; and deregistering a peer with only
    part of its files leaves it listed under the others, with no entry of
    its own. *)
Lemma index_invariant_counterexample :
  ¬ index_invariant
      (run [(("1.2.3.4", 40000%Z), Register [] 9000)])
  ∧ ¬ mirrored
      (run [(("1.2.3.4", 40000%Z), Register ["a.txt"; "b.txt"] 9000);
            (("1.2.3.4", 40001%Z),
             Deregister (mkDeregister "1.2.3.4:9000" 9000 ["a.txt"]))]).
Proof.
  split.
  - intros (_ & _ & Hpeers). apply (Hpeers "1.2.3.4:9000").
    vm_compute. reflexivity.
  - intros Hmirror. specialize (Hmirror "1.2.3.4:9000" "b.txt").
    match type of Hmirror with
    | _ ∈ files_of ?s ?p ↔ _ ∈ peers_of ?s ?f =>
        assert (files_of s p = []) as Hfiles by (vm_compute; reflexivity);
        assert (peers_of s f = ["1.2.3.4:9000"]) as Hlisted
          by (vm_compute; reflexivity)
    end.
    rewrite Hfiles, Hlisted in Hmirror.
    destruct Hmirror as [_ Hmirror].
    eapply elem_of_nil, Hmirror, list_elem_of_here.
Qed.


(** C3: [search] never fails; it returns the entry of the file name in
    [hash_table_files], or the empty list when there is none, and leaves
    the tables alone.  After peer 1.2.3.4:9000 registered a.txt and b.txt
    with the empty index, searching a.txt gives exactly that peer and
    searching c.txt gives nothing. *)
Theorem search_returns_peers :
  (∀ (file_name : string) (s : ServerOperations),
     search file_name s
     = (Return (Some (default [] (hash_table_files s !! file_name))), s))
  ∧ (∀ src_port : Z,
       let s := run [(("1.2.3.4", src_port),
                      Register ["a.txt"; "b.txt"] 9000)] in
       (search "a.txt" s).1 = Return (Some ["1.2.3.4:9000"])
       ∧ (search "c.txt" s).1 = Return (Some [])).
Proof.
  split.
  - intros file_name s. apply search_spec.
  - intros src_port. split; vm_compute; reflexivity.
Qed.

(** C4, as the code has it: an add or rm update for a peer ID that is no
    key of [hash_table_peer_files] leaves the three tables as they were;
    it returns [False] when the request names at least one file, and
    [True] when its file list is empty. *)
Theorem update_unknown_peer_unchanged (pu : peer_update)
    (s : ServerOperations) :
  pu_task pu = "add" ∨ pu_task pu = "rm" →
  hash_table_peer_files s !! pu_peer_id pu = None →
  update pu s = (Return (bool_decide (pu_files pu = [])), s).
Proof. apply update_unknown_peer. Qed.

Lemma update_unknown_peer_unchanged_witness :
  update (mkUpdate "5.6.7.8:9001" "rm" ["a.txt"])
    (run [(("1.2.3.4", 40000%Z), Register ["a.txt"] 9000)])
  = (Return false, run [(("1.2.3.4", 40000%Z), Register ["a.txt"] 9000)]).
Proof.
  apply (update_unknown_peer_unchanged
           (mkUpdate "5.6.7.8:9001" "rm" ["a.txt"])
           (run [(("1.2.3.4", 40000%Z), Register ["a.txt"] 9000)])).
  - right. reflexivity.
  - vm_compute. reflexivity.
Defined.

(** C4 as stated fails: an add update with an empty file list for a peer
    that never registered returns [True]. *)
Lemma update_unknown_peer_counterexample :
  hash_table_peer_files init !! "1.2.3.4:9000" = None
  ∧ (update (mkUpdate "1.2.3.4:9000" "add" []) init).1 = Return true
  ∧ (update (mkUpdate "1.2.3.4:9000" "add" []) init).1 ≠ Return false.
Proof. split; [|split]; [vm_compute; reflexivity..|]. vm_compute. done. Qed.

(** C7: [list_files_index_server] never fails; it returns the keys of
    [hash_table_files], each once, in no specified order.  After peer A
    registered x and peer B registered y with the empty index, the list
    is x and y in some order. *)
Theorem list_returns_keys :
  (∀ s : ServerOperations,
     ∃ l, list_files_index_server s = (Return (Some l), s)
          ∧ NoDup l
          ∧ ∀ f, f ∈ l ↔ is_Some (hash_table_files s !! f))
  ∧ (∀ (A B : string * Z) (port_A port_B : Z),
       ∃ l, (list_files_index_server
               (run [(A, Register ["x"] port_A);
                     (B, Register ["y"] port_B)])).1
            = Return (Some l)
            ∧ l ≡ₚ ["x"; "y"]).
Proof.
  split.
  - intros s. eexists. split; [reflexivity|].
    split; [apply NoDup_fst_map_to_list|].
    intros f. rewrite list_elem_of_fmap. split.
    + intros [[g l] [-> Hgl]]. apply elem_of_map_to_list in Hgl. by eexists.
    + intros [l Hl]. exists (f, l). split; [done|].
      by apply elem_of_map_to_list.
  - intros A B port_A port_B. eexists.
    split; [vm_compute; reflexivity|]. apply Permutation_swap.
Qed.

(** C10: an update whose task is neither add nor rm returns [True] and
    leaves the three tables as they were. *)
Theorem update_unknown_task_accepted (pu : peer_update)
    (s : ServerOperations) :
  pu_task pu ≠ "add" → pu_task pu ≠ "rm" →
  update pu s = (Return true, s).
Proof.
  intros Hadd Hrm. unfold update, try_except.
  rewrite !decide_False by done. done.
Qed.

Lemma update_unknown_task_accepted_witness :
  update (mkUpdate "1.2.3.4:9000" "delete" ["a.txt"])
    (run [(("1.2.3.4", 40000%Z), Register ["a.txt"] 9000)])
  = (Return true, run [(("1.2.3.4", 40000%Z), Register ["a.txt"] 9000)]).
Proof.
  apply (update_unknown_task_accepted
           (mkUpdate "1.2.3.4:9000" "delete" ["a.txt"])
           (run [(("1.2.3.4", 40000%Z), Register ["a.txt"] 9000)])).
  - simpl. discriminate.
  - simpl. discriminate.
Defined.

(** ** Add then remove *)

Lemma add_peer_insert (p f : string) (m : gmap string (list string)) :
  add_peer p f m = <[f := default [] (m !! f) ++ [p]]> m.
Proof. unfold add_peer. by destruct (m !! f). Qed.

Lemma drop_peer_lookup (p f : string) (l : list string)
    (m : gmap string (list string)) :
  m !! f = Some l → l ≠ [] →
  drop_peer p m f = store f (drop_scan (length l) 0 p l) m.
Proof. intros Hf Hl. unfold drop_peer. rewrite Hf. by destruct l. Qed.

(** Appending a peer to a file's entry and running the removal loop for
    that peer gives the table back, when the peer was not listed under the
    file and the entry, if any, was not empty. *)
Lemma drop_peer_add_peer (p f : string) (m : gmap string (list string)) :
  m !! f ≠ Some [] → p ∉ default [] (m !! f) →
  drop_peer p (add_peer p f m) f = m.
Proof.
  intros Hne Hp. rewrite add_peer_insert.
  rewrite (drop_peer_lookup p f (default [] (m !! f) ++ [p]));
    [|apply lookup_insert_eq|by intros [_ ?]%app_nil].
  rewrite drop_scan_last; [|done|lia|rewrite length_app; simpl; lia].
  rewrite store_insert.
  destruct (m !! f) as [l|] eqn:Hf; simpl.
  - apply store_same; [done|]. by intros ->.
  - by apply delete_id.
Qed.

(** A registration of a peer that is listed nowhere makes it registered
    with exactly the files of the request. *)
Lemma registry_registered_with (addr : string * Z) (files : list string)
    (peer_port : Z) (s : ServerOperations) :
  (∀ f, make_peer_id addr peer_port ∉ peers_of s f) →
  registered_with (registry addr files peer_port s).2
    (make_peer_id addr peer_port) files.
Proof.
  intros Hfresh. rewrite registry_spec. split; simpl.
  - apply lookup_insert_eq.
  - intros f. unfold peers_of. simpl. rewrite lookup_add_peers.
    rewrite (occurrences_pos f files).
    destruct (occurrences f files) as [|n] eqn:E; simpl.
    + split; [|lia]. intros Hin. by destruct (Hfresh f).
    + split; [lia|]. intros _. apply elem_of_app. right.
      apply list_elem_of_here.
Qed.

(** C6, as the code has it: in a state that the server reaches in which
    the entry of a peer in [hash_table_peer_files] is a.txt alone and the
    peer is not listed under b.txt in [hash_table_files], an add update of
    b.txt for that peer returns [True], the rm update of b.txt that
    follows returns [True], and after it the peer's entry is a.txt again
    and [hash_table_files] is what it was before the add. *)
Theorem update_add_rm_roundtrip (cs : list ((string * Z) * request))
    (p : string) :
  hash_table_peer_files (run cs) !! p = Some ["a.txt"] →
  p ∉ peers_of (run cs) "b.txt" →
  ∃ s1 s2,
    update (mkUpdate p "add" ["b.txt"]) (run cs) = (Return true, s1)
    ∧ update (mkUpdate p "rm" ["b.txt"]) s1 = (Return true, s2)
    ∧ hash_table_peer_files s2 !! p = Some ["a.txt"]
    ∧ hash_table_files s2 = hash_table_files (run cs).
Proof.
  intros Hp Hnot.
  eexists _, _. split; [by apply (update_add_spec p ["b.txt"] ["a.txt"])|].
  split.
  { apply (update_rm_one p "b.txt" ["a.txt"; "b.txt"] ["a.txt"]);
      [apply lookup_insert_eq|reflexivity]. }
  simpl. split; [apply lookup_insert_eq|].
  apply drop_peer_add_peer; [apply run_files_nonempty|done].
Qed.

Lemma update_add_rm_roundtrip_witness :
  ∃ s1 s2,
    update (mkUpdate "1.2.3.4:9000" "add" ["b.txt"])
      (run [(("1.2.3.4", 40000%Z), Register ["a.txt"] 9000);
            (("5.6.7.8", 40000%Z), Register ["b.txt"] 9001)])
    = (Return true, s1)
    ∧ update (mkUpdate "1.2.3.4:9000" "rm" ["b.txt"]) s1 = (Return true, s2)
    ∧ hash_table_peer_files s2 !! "1.2.3.4:9000" = Some ["a.txt"]
    ∧ hash_table_files s2
      = hash_table_files
          (run [(("1.2.3.4", 40000%Z), Register ["a.txt"] 9000);
                (("5.6.7.8", 40000%Z), Register ["b.txt"] 9001)]).
Proof.
  apply (update_add_rm_roundtrip
           [(("1.2.3.4", 40000%Z), Register ["a.txt"] 9000);
            (("5.6.7.8", 40000%Z), Register ["b.txt"] 9001)]
           "1.2.3.4:9000").
  - vm_compute. reflexivity.
  - assert (peers_of
              (run [(("1.2.3.4", 40000%Z), Register ["a.txt"] 9000);
                    (("5.6.7.8", 40000%Z), Register ["b.txt"] 9001)])
              "b.txt" = ["5.6.7.8:9001"]) as -> by (vm_compute; reflexivity).
    by intros [=]%list_elem_of_singleton.
Defined.

(** C6 as stated fails: a peer whose entry is a.txt alone can still be
    listed under b.txt, from an earlier registration that a later one
    replaced.  Then the add and the rm update both return [True] and the
    peer's entry is a.txt again, but the rm loop takes both occurrences of
    the peer out of the entry of b.txt, the old one as well as the added
    one, so [hash_table_files] is not what it was before the add. *)
Lemma update_add_rm_roundtrip_counterexample :
  let s := run [(("1.2.3.4", 40000%Z), Register ["b.txt"] 9000);
                (("5.6.7.8", 40000%Z), Register ["b.txt"] 9001);
                (("1.2.3.4", 40000%Z), Register ["a.txt"] 9000)] in
  let s1 := (update (mkUpdate "1.2.3.4:9000" "add" ["b.txt"]) s).2 in
  let s2 := (update (mkUpdate "1.2.3.4:9000" "rm" ["b.txt"]) s1).2 in
  hash_table_peer_files s !! "1.2.3.4:9000" = Some ["a.txt"]
  ∧ (update (mkUpdate "1.2.3.4:9000" "add" ["b.txt"]) s).1 = Return true
  ∧ (update (mkUpdate "1.2.3.4:9000" "rm" ["b.txt"]) s1).1 = Return true
  ∧ hash_table_peer_files s2 !! "1.2.3.4:9000" = Some ["a.txt"]
  ∧ hash_table_files s !! "b.txt" = Some ["1.2.3.4:9000"; "5.6.7.8:9001"]
  ∧ hash_table_files s2 !! "b.txt" = Some ["5.6.7.8:9001"]
  ∧ hash_table_files s2 ≠ hash_table_files s.
Proof.
  cbv zeta.
  assert (hash_table_files
            (update (mkUpdate "1.2.3.4:9000" "rm" ["b.txt"])
               (update (mkUpdate "1.2.3.4:9000" "add" ["b.txt"])
                  (run [(("1.2.3.4", 40000%Z), Register ["b.txt"] 9000);
                        (("5.6.7.8", 40000%Z), Register ["b.txt"] 9001);
                        (("1.2.3.4", 40000%Z), Register ["a.txt"] 9000)])).2).2
          !! "b.txt" = Some ["5.6.7.8:9001"]) as Hafter
    by (vm_compute; reflexivity).
  assert (hash_table_files
            (run [(("1.2.3.4", 40000%Z), Register ["b.txt"] 9000);
                  (("5.6.7.8", 40000%Z), Register ["b.txt"] 9001);
                  (("1.2.3.4", 40000%Z), Register ["a.txt"] 9000)])
          !! "b.txt" = Some ["1.2.3.4:9000"; "5.6.7.8:9001"]) as Hbefore
    by (vm_compute; reflexivity).
  split; [vm_compute; reflexivity|]. split; [vm_compute; reflexivity|].
  split; [vm_compute; reflexivity|]. split; [vm_compute; reflexivity|].
  split; [exact Hbefore|]. split; [exact Hafter|].
  intros Heq. rewrite Heq, Hbefore in Hafter. discriminate.
Qed.

(** ** Deregistration on an entry that lists the peer twice *)

(** [deregistry] always returns [True], and afterwards the hosting port
    and the peer ID are no keys of their tables. *)
Lemma deregistry_removes_port_and_peer (pd : peer_data)
    (s : ServerOperations) :
  ∃ s', deregistry pd s = (Return true, s')
    ∧ hash_table_ports_peers s' !! pd_hosting_port pd = None
    ∧ hash_table_peer_files s' !! pd_peer_id pd = None.
Proof.
  eexists. split; [apply deregistry_spec|]. simpl.
  split; apply lookup_delete_eq.
Qed.

(** C5 on the code: after a peer registered a.txt twice, its first
    deregistration returns [True] and leaves the peer listed under a.txt;
    the second returns [True] and pops a.txt, so the two states differ. *)
Theorem deregistry_twice_differs :
  let s := run [(("1.2.3.4", 40000%Z), Register ["a.txt"] 9000);
                (("1.2.3.4", 40001%Z), Register ["a.txt"] 9000)] in
  let pd := mkDeregister "1.2.3.4:9000" 9000 ["a.txt"] in
  let s1 := (deregistry pd s).2 in
  let s2 := (deregistry pd s1).2 in
  (deregistry pd s).1 = Return true
  ∧ (deregistry pd s1).1 = Return true
  ∧ hash_table_files s1 !! "a.txt" = Some ["1.2.3.4:9000"]
  ∧ hash_table_files s2 !! "a.txt" = None
  ∧ s2 ≠ s1.
Proof.
  cbv zeta.
  split; [vm_compute; reflexivity|].
  split; [vm_compute; reflexivity|].
  assert (∀ s1 s2 : ServerOperations,
    hash_table_files s1 !! "a.txt" = Some ["1.2.3.4:9000"] →
    hash_table_files s2 !! "a.txt" = None → s2 ≠ s1) as Hdiff.
  { intros s1 s2 H1 H2 ->. by rewrite H1 in H2. }
  split; [vm_compute; reflexivity|].
  split; [vm_compute; reflexivity|].
  apply Hdiff; vm_compute; reflexivity.
Qed.

(** C8 on the code: after a peer registered a.txt twice, its
    deregistration with a.txt in the file list removes the port and the
    peer's entry, but leaves the peer listed under a.txt. *)
Theorem deregistry_leaves_peer_listed :
  let s := run [(("1.2.3.4", 40000%Z), Register ["a.txt"] 9000);
                (("1.2.3.4", 40001%Z), Register ["a.txt"] 9000)] in
  let pd := mkDeregister "1.2.3.4:9000" 9000 ["a.txt"] in
  let s' := (deregistry pd s).2 in
  hash_table_files s !! "a.txt" = Some ["1.2.3.4:9000"; "1.2.3.4:9000"]
  ∧ hash_table_ports_peers s' !! 9000%Z = None
  ∧ hash_table_peer_files s' !! "1.2.3.4:9000" = None
  ∧ "a.txt" ∈ pd_files pd
  ∧ "1.2.3.4:9000" ∈ peers_of s' "a.txt".
Proof.
  cbv zeta.
  split; [vm_compute; reflexivity|].
  split; [vm_compute; reflexivity|].
  split; [vm_compute; reflexivity|].
  split; [apply list_elem_of_here|].
  match goal with
  | |- _ ∈ peers_of ?s ?f =>
      assert (peers_of s f = ["1.2.3.4:9000"]) as ->
        by (vm_compute; reflexivity)
  end.
  apply list_elem_of_here.
Qed.

(** ** Deregistration where no entry lists a peer twice

    The loop of lines 163-167 skips the element that follows a removed
    one, so it misses a second occurrence of the peer.  Where every entry
    of [hash_table_files] is free of duplicates it removes the peer, and
    a repeated deregistration changes nothing. *)

Lemma list_remove_sublist (x : string) (l l' : list string) :
  list_remove x l = Some l' → l' `sublist_of` l.
Proof.
  revert l'. induction l as [|y l IH]; intros l'; [done|]. simpl.
  destruct (decide (y = x)).
  - intros [= ->]. by apply sublist_cons.
  - destruct (list_remove x l) as [l1|]; [|done].
    intros [= <-]. apply sublist_skip. by apply IH.
Qed.

Lemma drop_scan_sublist (fuel i : nat) (target : string) (l : list string) :
  drop_scan fuel i target l `sublist_of` l.
Proof.
  revert i l. induction fuel as [|fuel IH]; intros i l; [done|]. simpl.
  destruct (l !! i) as [x|]; [|done].
  destruct (decide (x = target)); [|apply IH].
  destruct (list_remove x l) as [l1|] eqn:Hl1; [|done].
  etrans; [apply IH|]. by eapply list_remove_sublist.
Qed.

Lemma list_remove_NoDup (x : string) (l l' : list string) :
  NoDup l → list_remove x l = Some l' → x ∉ l'.
Proof.
  revert l'. induction l as [|y l IH]; intros l' Hdup; [done|]. simpl.
  apply NoDup_cons in Hdup as [Hy Hdup].
  destruct (decide (y = x)) as [->|Hne].
  - by intros [= <-].
  - destruct (list_remove x l) as [l1|]; [|done].
    intros [= <-]. apply not_elem_of_cons. split; [done|]. by apply IH.
Qed.

(** On a duplicate-free list the scan removes the peer. *)
Lemma drop_scan_NoDup (fuel i : nat) (target : string) (l : list string) :
  NoDup l → target ∉ take i l → length l ≤ fuel + i →
  target ∉ drop_scan fuel i target l.
Proof.
  revert i. induction fuel as [|fuel IH]; intros i Hdup Htake Hlen.
  - simpl. by rewrite take_ge in Htake by lia.
  - simpl. destruct (l !! i) as [x|] eqn:Hx.
    + destruct (decide (x = target)) as [->|Hne].
      * destruct (list_remove target l) as [l1|] eqn:Hl1.
        -- rewrite drop_scan_absent; by eapply list_remove_NoDup.
        -- destruct (list_remove_elem target l) as [l1 Hl1'];
             [by eapply list_elem_of_lookup_2|congruence].
      * apply IH; [done| |lia]. rewrite (take_S_r l i x Hx).
        apply not_elem_of_app. split; [done|].
        by intros ->%list_elem_of_singleton.
    + apply lookup_ge_None in Hx. by rewrite take_ge in Htake by lia.
Qed.

(** The entry of [f] after one round of the outer loop, on file [g]. *)
Lemma lookup_drop_peer (p f g : string) (m : gmap string (list string)) :
  default [] (drop_peer p m g !! f)
  = if decide (g = f)
    then drop_scan (length (default [] (m !! f))) 0 p (default [] (m !! f))
    else default [] (m !! f).
Proof.
  unfold drop_peer. destruct (decide (g = f)) as [->|Hne].
  - destruct (m !! f) as [[|x l]|] eqn:Hf; simpl;
      [by rewrite Hf| |by rewrite Hf].
    destruct (drop_scan (length (x :: l)) 0 p (x :: l)) as [|y l'] eqn:E.
    + simpl in E. rewrite E. simpl. by rewrite lookup_delete_eq.
    + simpl in E. rewrite E. simpl. by rewrite lookup_insert_eq.
  - destruct (m !! g) as [[|x l]|] eqn:Hg; [done| |done].
    destruct (drop_scan (length (x :: l)) 0 p (x :: l)); simpl.
    + by rewrite lookup_delete_ne.
    + by rewrite lookup_insert_ne.
Qed.

(** A round on a file whose entry does not list the peer is void. *)
Lemma drop_peer_absent (p g : string) (m : gmap string (list string)) :
  p ∉ default [] (m !! g) → drop_peer p m g = m.
Proof.
  intros Hp. unfold drop_peer.
  destruct (m !! g) as [[|x l]|] eqn:Hg; [done| |done].
  rewrite drop_scan_absent by done. by apply insert_id.
Qed.

Lemma drop_peers_unlisted (p f : string) (files : list string)
    (m : gmap string (list string)) :
  NoDup (default [] (m !! f)) →
  f ∈ files ∨ p ∉ default [] (m !! f) →
  p ∉ default [] (foldl (drop_peer p) m files !! f).
Proof.
  revert m. induction files as [|g files IH]; intros m Hdup Hf; simpl.
  - destruct Hf as [Hf|Hf]; [by apply elem_of_nil in Hf|done].
  - apply IH.
    + rewrite lookup_drop_peer. destruct (decide (g = f)); [|done].
      subst g. eapply sublist_NoDup; [apply Hdup|apply drop_scan_sublist].
    + rewrite lookup_drop_peer.
      destruct (decide (g = f)) as [->|Hne].
      * right. apply drop_scan_NoDup; [done|apply not_elem_of_nil|lia].
      * destruct Hf as [[?|Hf]%elem_of_cons|Hf]; [done|by left|by right].
Qed.

Lemma drop_peers_absent (p : string) (files : list string)
    (m : gmap string (list string)) :
  (∀ f, f ∈ files → p ∉ default [] (m !! f)) →
  foldl (drop_peer p) m files = m.
Proof.
  induction files as [|g files IH]; intros Hm; [done|]. simpl.
  rewrite drop_peer_absent by (apply Hm, list_elem_of_here).
  apply IH. intros f Hf. by apply Hm, list_elem_of_further.
Qed.

(** Where no entry lists a peer twice, [deregistry] leaves the peer under
    none of the files of the request. *)
Lemma deregistry_unlists_peer (pd : peer_data) (s : ServerOperations)
    (f : string) :
  (∀ g, NoDup (peers_of s g)) → f ∈ pd_files pd →
  pd_peer_id pd ∉ peers_of (deregistry pd s).2 f.
Proof.
  intros Hdup Hf. rewrite deregistry_spec. unfold peers_of. simpl.
  apply drop_peers_unlisted; [apply Hdup|by left].
Qed.

(** Where no entry lists a peer twice, a second [deregistry] with the same
    request returns [True] and changes nothing. *)
Lemma deregistry_idempotent_nodup (pd : peer_data) (s : ServerOperations) :
  (∀ g, NoDup (peers_of s g)) →
  deregistry pd (deregistry pd s).2 = (Return true, (deregistry pd s).2).
Proof.
  intros Hdup. rewrite (deregistry_spec pd s). simpl.
  rewrite deregistry_spec. simpl. rewrite !delete_delete_eq.
  rewrite drop_peers_absent; [done|].
  intros f Hf. apply drop_peers_unlisted; [apply Hdup|by left].
Qed.

(** * Further properties of the handlers *)

(** ** [deregistry] *)

Lemma list_remove_other (x q : string) (l l' : list string) :
  q ≠ x → list_remove x l = Some l' → q ∈ l' ↔ q ∈ l.
Proof.
  intros Hq. revert l'. induction l as [|y l IH]; intros l'; [done|]. simpl.
  destruct (decide (y = x)) as [->|Hne].
  - intros [= ->]. rewrite elem_of_cons. split; [by right|].
    by intros [?|?].
  - destruct (list_remove x l) as [l1|]; [|done].
    intros [= <-]. rewrite !elem_of_cons, (IH l1) by done. done.
Qed.

(** The scan removes nothing but the peer it looks for. *)
Lemma drop_scan_other (fuel i : nat) (target q : string) (l : list string) :
  q ≠ target → q ∈ drop_scan fuel i target l ↔ q ∈ l.
Proof.
  intros Hq. revert i l. induction fuel as [|fuel IH]; intros i l; [done|].
  simpl. destruct (l !! i) as [x|]; [|done].
  destruct (decide (x = target)) as [->|Hne]; [|apply IH].
  destruct (list_remove target l) as [l1|] eqn:Hl1; [|done].
  rewrite IH. by apply (list_remove_other target).
Qed.

Lemma drop_peers_other_file (p f : string) (files : list string)
    (m : gmap string (list string)) :
  f ∉ files → foldl (drop_peer p) m files !! f = m !! f.
Proof.
  revert m. induction files as [|g files IH]; intros m Hf; [done|]. simpl.
  apply not_elem_of_cons in Hf as [Hne Hf]. rewrite IH by done.
  unfold drop_peer. destruct (m !! g) as [[|x l]|]; [done| |done].
  destruct (drop_scan (length (x :: l)) 0 p (x :: l)); simpl.
  - by rewrite lookup_delete_ne.
  - by rewrite lookup_insert_ne.
Qed.

Lemma drop_peers_other_peer (p q f : string) (files : list string)
    (m : gmap string (list string)) :
  q ≠ p →
  q ∈ default [] (foldl (drop_peer p) m files !! f) ↔ q ∈ default [] (m !! f).
Proof.
  intros Hq. revert m. induction files as [|g files IH]; intros m; [done|].
  simpl. rewrite IH, lookup_drop_peer.
  destruct (decide (g = f)); [|done]. by apply drop_scan_other.
Qed.

Lemma drop_peers_sublist (p f : string) (files : list string)
    (m : gmap string (list string)) :
  default [] (foldl (drop_peer p) m files !! f)
    `sublist_of` default [] (m !! f).
Proof.
  revert m. induction files as [|g files IH]; intros m; [done|]. simpl.
  etrans; [apply IH|]. rewrite lookup_drop_peer.
  destruct (decide (g = f)); [|done]. apply drop_scan_sublist.
Qed.

Lemma registry_other_file (addr : string * Z) (files : list string)
    (peer_port : Z) (s : ServerOperations) (f : string) :
  f ∉ files →
  hash_table_files (registry addr files peer_port s).2 !! f
  = hash_table_files s !! f.
Proof.
  intros Hf. rewrite registry_spec. simpl. rewrite lookup_add_peers.
  destruct (occurrences f files) as [|n] eqn:E; [done|].
  destruct Hf. apply occurrences_pos. lia.
Qed.

(** X1: [deregistry] returns [True] on every state and every request: no
    lookup or [remove] in it can raise.  Afterwards the hosting port and
    the peer ID are no keys of their tables, and the other ports and the
    other peers' entries are what they were. *)
Theorem deregistry_never_fails (pd : peer_data) (s : ServerOperations) :
  ∃ s', deregistry pd s = (Return true, s')
    ∧ hash_table_ports_peers s' !! pd_hosting_port pd = None
    ∧ hash_table_peer_files s' !! pd_peer_id pd = None
    ∧ (∀ port, port ≠ pd_hosting_port pd →
         hash_table_ports_peers s' !! port = hash_table_ports_peers s !! port)
    ∧ (∀ q, q ≠ pd_peer_id pd →
         hash_table_peer_files s' !! q = hash_table_peer_files s !! q).
Proof.
  eexists. split; [apply deregistry_spec|]. simpl.
  split; [apply lookup_delete_eq|]. split; [apply lookup_delete_eq|].
  split; intros k Hk; by apply lookup_delete_ne.
Qed.

(** X2: on [hash_table_files], [deregistry] touches only the entries of
    the files the request names, never adds a peer to an entry, and never
    unlists another peer than the one of the request. *)
Theorem deregistry_touches_only_its_peer (pd : peer_data)
    (s : ServerOperations) :
  (∀ f, f ∉ pd_files pd →
     hash_table_files (deregistry pd s).2 !! f = hash_table_files s !! f)
  ∧ (∀ f, peers_of (deregistry pd s).2 f `sublist_of` peers_of s f)
  ∧ (∀ q f, q ≠ pd_peer_id pd →
       q ∈ peers_of (deregistry pd s).2 f ↔ q ∈ peers_of s f).
Proof.
  rewrite deregistry_spec. unfold peers_of. simpl. split; [|split].
  - intros f Hf. by apply drop_peers_other_file.
  - intros f. apply drop_peers_sublist.
  - intros q f Hq. by apply drop_peers_other_peer.
Qed.

(** X3: where no entry of [hash_table_files] lists a peer twice,
    [deregistry] leaves the peer of the request under none of the files
    the request names. *)
Theorem deregistry_unlists_where_no_duplicates (pd : peer_data)
    (s : ServerOperations) (f : string) :
  (∀ g, NoDup (peers_of s g)) → f ∈ pd_files pd →
  pd_peer_id pd ∉ peers_of (deregistry pd s).2 f.
Proof. apply deregistry_unlists_peer. Qed.

Lemma deregistry_unlists_where_no_duplicates_witness :
  "1.2.3.4:9000"
  ∉ peers_of
      (deregistry (mkDeregister "1.2.3.4:9000" 9000 ["a.txt"])
         (run [(("1.2.3.4", 40000%Z), Register ["a.txt"] 9000);
               (("5.6.7.8", 40000%Z), Register ["a.txt"] 9001)])).2
      "a.txt".
Proof.
  apply (deregistry_unlists_where_no_duplicates
           (mkDeregister "1.2.3.4:9000" 9000 ["a.txt"])
           (run [(("1.2.3.4", 40000%Z), Register ["a.txt"] 9000);
                 (("5.6.7.8", 40000%Z), Register ["a.txt"] 9001)])
           "a.txt").
  - intros g. unfold peers_of.
    destruct (decide (g = "a.txt")) as [->|Hne].
    + match goal with
      | |- NoDup ?l =>
          assert (l = ["1.2.3.4:9000"; "5.6.7.8:9001"]) as ->
            by (vm_compute; reflexivity)
      end.
      apply NoDup_cons.
      split; [by intros [=]%list_elem_of_singleton|apply NoDup_singleton].
    + replace (hash_table_files _ !! g) with (@None (list string));
        [apply NoDup_nil_2|].
      unfold run. cbn [foldl]. unfold serve. cbn [fst snd].
      rewrite !registry_other_file by by intros ->%list_elem_of_singleton.
      done.
  - apply list_elem_of_here.
Defined.

(** X4: where no entry of [hash_table_files] lists a peer twice, a second
    [deregistry] with the same request returns [True] and leaves the three
    tables as the first one left them. *)
Theorem deregistry_twice_where_no_duplicates (pd : peer_data)
    (s : ServerOperations) :
  (∀ g, NoDup (peers_of s g)) →
  deregistry pd (deregistry pd s).2 = (Return true, (deregistry pd s).2).
Proof. apply deregistry_idempotent_nodup. Qed.

Lemma deregistry_twice_where_no_duplicates_witness :
  deregistry (mkDeregister "1.2.3.4:9000" 9000 ["a.txt"])
    (deregistry (mkDeregister "1.2.3.4:9000" 9000 ["a.txt"])
       (run [(("1.2.3.4", 40000%Z), Register ["a.txt"; "b.txt"] 9000);
             (("5.6.7.8", 40000%Z), Register ["a.txt"] 9001)])).2
  = (Return true,
     (deregistry (mkDeregister "1.2.3.4:9000" 9000 ["a.txt"])
        (run [(("1.2.3.4", 40000%Z), Register ["a.txt"; "b.txt"] 9000);
              (("5.6.7.8", 40000%Z), Register ["a.txt"] 9001)])).2).
Proof.
  apply (deregistry_twice_where_no_duplicates
           (mkDeregister "1.2.3.4:9000" 9000 ["a.txt"])
           (run [(("1.2.3.4", 40000%Z), Register ["a.txt"; "b.txt"] 9000);
                 (("5.6.7.8", 40000%Z), Register ["a.txt"] 9001)])).
  intros g. unfold peers_of.
  destruct (decide (g = "a.txt")) as [->|Ha].
  { match goal with
    | |- NoDup ?l =>
        assert (l = ["1.2.3.4:9000"; "5.6.7.8:9001"]) as ->
          by (vm_compute; reflexivity)
    end.
    apply NoDup_cons.
    split; [by intros [=]%list_elem_of_singleton|apply NoDup_singleton]. }
  destruct (decide (g = "b.txt")) as [->|Hb].
  { match goal with
    | |- NoDup ?l =>
        assert (l = ["1.2.3.4:9000"]) as -> by (vm_compute; reflexivity)
    end.
    apply NoDup_singleton. }
  replace (hash_table_files _ !! g) with (@None (list string));
    [apply NoDup_nil_2|].
  unfold run. cbn [foldl]. unfold serve. cbn [fst snd].
  rewrite !registry_other_file; [done|..].
  - intros [->|[->|[]%elem_of_nil]%elem_of_cons]%elem_of_cons; done.
  - by intros ->%list_elem_of_singleton.
Defined.

(** ** [registry] *)

(** X5: a registration of a peer that is listed under no file leaves it
    registered with exactly the files of the request: they are its entry
    in [hash_table_peer_files], and [hash_table_files] lists the peer under
    these files and no others. *)
Theorem registry_fresh_peer_registered (addr : string * Z)
    (files : list string) (peer_port : Z) (s : ServerOperations) :
  (∀ f, make_peer_id addr peer_port ∉ peers_of s f) →
  registered_with (registry addr files peer_port s).2
    (make_peer_id addr peer_port) files.
Proof. apply registry_registered_with. Qed.

Lemma registry_fresh_peer_registered_witness :
  registered_with
    (registry ("1.2.3.4", 40000%Z) ["a.txt"; "b.txt"] 9000 init).2
    (make_peer_id ("1.2.3.4", 40000%Z) 9000) ["a.txt"; "b.txt"].
Proof.
  apply (registry_fresh_peer_registered
           ("1.2.3.4", 40000%Z) ["a.txt"; "b.txt"] 9000 init).
  intros f. unfold peers_of. simpl. rewrite lookup_empty. apply not_elem_of_nil.
Defined.

(** X6: a peer that registers again is given the new file list as its
    entry in [hash_table_peer_files], but stays listed in
    [hash_table_files] under the files of its earlier registration as well
    as under the new ones: nothing of the old registration is unlisted. *)
Theorem registry_again_keeps_old_listing (addr : string * Z)
    (old new : list string) (peer_port : Z) (s : ServerOperations) :
  registered_with s (make_peer_id addr peer_port) old →
  hash_table_peer_files (registry addr new peer_port s).2
    !! make_peer_id addr peer_port = Some new
  ∧ ∀ f, make_peer_id addr peer_port
           ∈ peers_of (registry addr new peer_port s).2 f
         ↔ f ∈ old ∨ f ∈ new.
Proof.
  intros [_ Hold]. rewrite registry_spec. simpl.
  split; [apply lookup_insert_eq|].
  intros f. unfold peers_of. simpl. rewrite lookup_add_peers.
  rewrite (occurrences_pos f new), <-Hold. unfold peers_of.
  destruct (occurrences f new) as [|n] eqn:E; simpl.
  - split; [by left|]. intros [?|?]; [done|lia].
  - split; [intros _; right; lia|]. intros _. apply elem_of_app. right.
    apply list_elem_of_here.
Qed.

Lemma registry_again_keeps_old_listing_witness :
  hash_table_peer_files
    (registry ("1.2.3.4", 40001%Z) ["b.txt"] 9000
       (registry ("1.2.3.4", 40000%Z) ["a.txt"] 9000 init).2).2
    !! make_peer_id ("1.2.3.4", 40001%Z) 9000 = Some ["b.txt"]
  ∧ ∀ f, make_peer_id ("1.2.3.4", 40001%Z) 9000
           ∈ peers_of
               (registry ("1.2.3.4", 40001%Z) ["b.txt"] 9000
                  (registry ("1.2.3.4", 40000%Z) ["a.txt"] 9000 init).2).2 f
         ↔ f ∈ ["a.txt"] ∨ f ∈ ["b.txt"].
Proof.
  apply (registry_again_keeps_old_listing
           ("1.2.3.4", 40001%Z) ["a.txt"] ["b.txt"] 9000
           (registry ("1.2.3.4", 40000%Z) ["a.txt"] 9000 init).2).
  apply (registry_registered_with ("1.2.3.4", 40000%Z) ["a.txt"] 9000 init).
  intros f. unfold peers_of. simpl. rewrite lookup_empty. apply not_elem_of_nil.
Defined.

Lemma appended_other (n : nat) (p q : string) (o : option (list string)) :
  q ≠ p → q ∈ default [] (appended n p o) ↔ q ∈ default [] o.
Proof.
  intros Hq. destruct n as [|n]; [done|]. unfold appended.
  simpl. rewrite elem_of_app, elem_of_cons.
  split; [|by left]. intros [?|[?|Hrep]]; [done..|].
  by apply elem_of_replicate in Hrep as [? _].
Qed.

(** X7: a registration leaves the other peers alone: their entries in
    [hash_table_peer_files] are what they were, and each of them is listed
    under exactly the files it was listed under; and only the entries of
    the files of the request change. *)
Theorem registry_keeps_other_peers (addr : string * Z) (files : list string)
    (peer_port : Z) (s : ServerOperations) :
  (∀ q, q ≠ make_peer_id addr peer_port →
     hash_table_peer_files (registry addr files peer_port s).2 !! q
     = hash_table_peer_files s !! q)
  ∧ (∀ q f, q ≠ make_peer_id addr peer_port →
       q ∈ peers_of (registry addr files peer_port s).2 f
       ↔ q ∈ peers_of s f)
  ∧ (∀ f, f ∉ files →
       hash_table_files (registry addr files peer_port s).2 !! f
       = hash_table_files s !! f).
Proof.
  split; [|split].
  - intros q Hq. rewrite registry_spec. simpl. by apply lookup_insert_ne.
  - intros q f Hq. rewrite registry_spec. unfold peers_of. simpl.
    rewrite lookup_add_peers. by apply appended_other.
  - intros f Hf. by apply registry_other_file.
Qed.

(** ** [update] *)

Lemma for_each_app {X} (l1 l2 : list X) (body : X → M unit)
    (s : ServerOperations) :
  for_each (l1 ++ l2) body s
  = match for_each l1 body s with
    | (Return _, s') => for_each l2 body s'
    | (Raise e, s') => (Raise e, s')
    end.
Proof.
  revert s. induction l1 as [|x l1 IH]; intros s; [done|]. simpl.
  unfold bind. destruct (body x s) as [[[]|e] s1]; [apply IH|done].
Qed.

(** Lines 107-113: the round raises [KeyError] for a peer without an
    entry, [ValueError] for a file that the peer's entry does not hold,
    both before anything is written. *)
Lemma rm_round_spec (p f : string) (s : ServerOperations) :
  rm_round p f s
  = match hash_table_peer_files s !! p with
    | None => (Raise KeyError, s)
    | Some l =>
        match list_remove f l with
        | None => (Raise ValueError, s)
        | Some l' =>
            (Return tt,
             {| hash_table_ports_peers := hash_table_ports_peers s;
                hash_table_files := drop_peer p (hash_table_files s) f;
                hash_table_peer_files :=
                  <[p := l']> (hash_table_peer_files s) |})
        end
    end.
Proof.
  unfold rm_round. unfold bind at 1.
  unfold peer_files_entry_remove, bind, peer_files_getitem.
  destruct (hash_table_peer_files s !! p) as [l|]; [|done].
  destruct (list_remove f l) as [l'|]; [|done].
  unfold set_peer_files at 1.
  pose proof (drop_peer_round f p) as Hround. unfold bind in Hround.
  by rewrite Hround.
Qed.

Lemma update_rm_unfold (p : string) (files : list string)
    (s : ServerOperations) :
  update (mkUpdate p "rm" files) s
  = match for_each files (rm_round p) s with
    | (Return _, s') => (Return true, s')
    | (Raise _, s') => (Return false, s')
    end.
Proof.
  unfold update, try_except. simpl.
  unfold bind at 1. unfold ret at 1. unfold bind at 1.
  change (λ f : string,
    peer_files_entry_remove p f >>
    (let! present := files_contains f in
     if present : bool then for_peers_of f (drop_if_equal f p) else ret tt))
    with (rm_round p).
  by destruct (for_each files (rm_round p) s) as [[[]|e] s'].
Qed.

(** X8: an add update for a peer that has an entry returns [True]; it
    appends the files of the request to the peer's entry, in their order,
    appends the peer to each file's entry once for each occurrence of the
    file in the request, creating the entry when it is absent, and leaves
    the ports alone. *)
Theorem update_add_registered_peer (p : string) (files l : list string)
    (s : ServerOperations) :
  hash_table_peer_files s !! p = Some l →
  ∃ s', update (mkUpdate p "add" files) s = (Return true, s')
    ∧ hash_table_ports_peers s' = hash_table_ports_peers s
    ∧ hash_table_peer_files s' !! p = Some (l ++ files)
    ∧ ∀ f, hash_table_files s' !! f
           = appended (occurrences f files) p (hash_table_files s !! f).
Proof.
  intros Hp. eexists. split; [by apply update_add_spec|]. simpl.
  split; [done|]. split; [apply lookup_insert_eq|].
  intros f. apply lookup_add_peers.
Qed.

Lemma update_add_registered_peer_witness :
  ∃ s', update (mkUpdate "1.2.3.4:9000" "add" ["b.txt"; "b.txt"])
          (run [(("1.2.3.4", 40000%Z), Register ["a.txt"] 9000)])
        = (Return true, s')
    ∧ hash_table_ports_peers s'
      = hash_table_ports_peers
          (run [(("1.2.3.4", 40000%Z), Register ["a.txt"] 9000)])
    ∧ hash_table_peer_files s' !! "1.2.3.4:9000"
      = Some (["a.txt"] ++ ["b.txt"; "b.txt"])
    ∧ ∀ f, hash_table_files s' !! f
           = appended (occurrences f ["b.txt"; "b.txt"]) "1.2.3.4:9000"
               (hash_table_files
                  (run [(("1.2.3.4", 40000%Z), Register ["a.txt"] 9000)])
                !! f).
Proof.
  apply (update_add_registered_peer "1.2.3.4:9000" ["b.txt"; "b.txt"]
           ["a.txt"] (run [(("1.2.3.4", 40000%Z), Register ["a.txt"] 9000)])).
  vm_compute. reflexivity.
Defined.

(** X9: an rm update whose first file is not in the peer's entry returns
    [False] and leaves the three tables as they were, whatever files
    follow in the request. *)
Theorem update_rm_file_not_hosted (p g : string) (rest l : list string)
    (s : ServerOperations) :
  hash_table_peer_files s !! p = Some l → g ∉ l →
  update (mkUpdate p "rm" (g :: rest)) s = (Return false, s).
Proof.
  intros Hp Hg. rewrite update_rm_unfold. simpl. unfold bind.
  by rewrite rm_round_spec, Hp, list_remove_notin.
Qed.

Lemma update_rm_file_not_hosted_witness :
  update (mkUpdate "1.2.3.4:9000" "rm" ["c.txt"; "a.txt"])
    (run [(("1.2.3.4", 40000%Z), Register ["a.txt"] 9000)])
  = (Return false, run [(("1.2.3.4", 40000%Z), Register ["a.txt"] 9000)]).
Proof.
  apply (update_rm_file_not_hosted "1.2.3.4:9000" "c.txt" ["a.txt"] ["a.txt"]
           (run [(("1.2.3.4", 40000%Z), Register ["a.txt"] 9000)])).
  - vm_compute. reflexivity.
  - by intros [=]%list_elem_of_singleton.
Defined.

(** X10: an rm update is not undone when it fails.  If the update of the
    files [files] succeeds and the next file [g] of a longer request is not
    in what is then the peer's entry, the longer request returns [False]
    and leaves the tables as the update of [files] alone leaves them: the
    removals made before the failing file stay, the files after it are not
    looked at. *)
Theorem update_rm_failure_keeps_prefix (p g : string)
    (files rest l' : list string) (s s' : ServerOperations) :
  update (mkUpdate p "rm" files) s = (Return true, s') →
  hash_table_peer_files s' !! p = Some l' → g ∉ l' →
  update (mkUpdate p "rm" (files ++ g :: rest)) s = (Return false, s').
Proof.
  rewrite !update_rm_unfold, for_each_app.
  destruct (for_each files (rm_round p) s) as [[[]|e] s1]; [|done].
  intros [= ->] Hp Hg. simpl. unfold bind.
  by rewrite rm_round_spec, Hp, list_remove_notin.
Qed.

Lemma update_rm_failure_keeps_prefix_witness :
  update (mkUpdate "1.2.3.4:9000" "rm" (["a.txt"] ++ "c.txt" :: ["b.txt"]))
    (run [(("1.2.3.4", 40000%Z), Register ["a.txt"; "b.txt"] 9000)])
  = (Return false,
     (update (mkUpdate "1.2.3.4:9000" "rm" ["a.txt"])
        (run [(("1.2.3.4", 40000%Z),
               Register ["a.txt"; "b.txt"] 9000)])).2).
Proof.
  apply (update_rm_failure_keeps_prefix "1.2.3.4:9000" "c.txt"
           ["a.txt"] ["b.txt"] ["b.txt"]
           (run [(("1.2.3.4", 40000%Z), Register ["a.txt"; "b.txt"] 9000)])).
  - vm_compute. reflexivity.
  - vm_compute. reflexivity.
  - by intros [=]%list_elem_of_singleton.
Defined.

Lemma others_kept_on_files (p : string) (s0 s : ServerOperations)
    (g : gmap string (list string) → gmap string (list string)) :
  (∀ q f, q ≠ p →
     q ∈ default [] (g (hash_table_files s) !! f)
     ↔ q ∈ default [] (hash_table_files s !! f)) →
  others_kept p s0 s → others_kept p s0 (on_files g s).
Proof.
  intros Hg (Hports & Hpeers & Hlisted). split; [done|]. split; [done|].
  intros q f Hq. rewrite <-(Hlisted q f Hq). unfold peers_of. simpl.
  by apply Hg.
Qed.

Lemma others_kept_peer_entry (p : string) (l : list string)
    (s0 s : ServerOperations) :
  others_kept p s0 s →
  others_kept p s0 (set_peer_files <[p := l]> s).2.
Proof.
  intros (Hports & Hpeers & Hlisted). split; [done|]. split; [|done].
  intros q Hq. simpl. rewrite lookup_insert_ne by done. by apply Hpeers.
Qed.

Lemma peer_files_entry_append_others (p f : string) (s0 : ServerOperations) :
  preserves (others_kept p s0) (peer_files_entry_append p f).
Proof.
  intros s Hs. unfold peer_files_entry_append, bind, peer_files_getitem.
  destruct (hash_table_peer_files s !! p) as [l|]; [|done].
  by apply others_kept_peer_entry.
Qed.

Lemma peer_files_entry_remove_others (p f : string) (s0 : ServerOperations) :
  preserves (others_kept p s0) (peer_files_entry_remove p f).
Proof.
  intros s Hs. unfold peer_files_entry_remove, bind, peer_files_getitem.
  destruct (hash_table_peer_files s !! p) as [l|]; [|done].
  destruct (list_remove f l) as [l'|]; [|done].
  by apply others_kept_peer_entry.
Qed.

Lemma update_others_kept (pu : peer_update) (s0 : ServerOperations) :
  preserves (others_kept (pu_peer_id pu) s0) (update pu).
Proof.
  unfold update. apply preserves_try_except; [|apply preserves_ret].
  apply preserves_bind; [|intros _; apply preserves_bind].
  - apply preserves_if_decide; [|apply preserves_ret].
    apply preserves_for_each. intros f. apply preserves_bind.
    + apply peer_files_entry_append_others.
    + intros _ s Hs. pose proof (register_round (pu_peer_id pu) f s) as H.
      unfold bind in H. unfold bind. rewrite H.
      apply others_kept_on_files; [|done]. intros q g Hq.
      rewrite lookup_add_peer. destruct (decide (f = g)); [|done].
      by apply (appended_other 1).
  - apply preserves_if_decide; [|apply preserves_ret].
    apply preserves_for_each. intros f. apply preserves_bind.
    + apply peer_files_entry_remove_others.
    + intros _ s Hs. pose proof (drop_peer_round f (pu_peer_id pu) s) as H.
      unfold bind in H. unfold bind. rewrite H.
      apply others_kept_on_files; [|done]. intros q g Hq.
      rewrite lookup_drop_peer. destruct (decide (f = g)); [|done].
      by apply drop_scan_other.
  - intros _. apply preserves_ret.
Qed.

(** X11: whatever the request and whether it returns [True] or [False], an
    update changes nothing that belongs to another peer: the ports table
    is what it was, so are the other peers' entries, and every other peer
    is listed under exactly the files it was listed under. *)
Theorem update_keeps_other_peers (pu : peer_update) (s : ServerOperations) :
  hash_table_ports_peers (update pu s).2 = hash_table_ports_peers s
  ∧ (∀ q, q ≠ pu_peer_id pu →
       hash_table_peer_files (update pu s).2 !! q
       = hash_table_peer_files s !! q)
  ∧ (∀ q f, q ≠ pu_peer_id pu →
       q ∈ peers_of (update pu s).2 f ↔ q ∈ peers_of s f).
Proof. by apply (update_others_kept pu s s). Qed.

(** X12: an rm update of one file that the peer's entry holds returns
    [True] and removes the first occurrence of the file from that entry,
    whatever the entry of the file in [hash_table_files] is; where that
    entry lists no peer twice, the peer is no longer listed under the
    file. *)
Theorem update_rm_unlists_peer (p f : string) (l : list string)
    (s : ServerOperations) :
  hash_table_peer_files s !! p = Some l → f ∈ l →
  ∃ s' l', update (mkUpdate p "rm" [f]) s = (Return true, s')
    ∧ list_remove f l = Some l'
    ∧ hash_table_peer_files s' !! p = Some l'
    ∧ length l = S (length l')
    ∧ (NoDup (peers_of s f) → p ∉ peers_of s' f).
Proof.
  intros Hp Hf. destruct (list_remove_elem f l Hf) as [l' Hl'].
  eexists _, l'. split; [by apply (update_rm_one p f l l')|].
  split; [done|]. simpl. split; [apply lookup_insert_eq|].
  split; [by apply list_remove_length in Hl'|].
  intros Hdup.
  unfold peers_of. simpl. rewrite lookup_drop_peer, decide_True by done.
  apply drop_scan_NoDup; [done|apply not_elem_of_nil|lia].
Qed.

Lemma update_rm_unlists_peer_witness :
  (∃ s' l',
     update (mkUpdate "1.2.3.4:9000" "rm" ["a.txt"])
       (run [(("1.2.3.4", 40000%Z), Register ["a.txt"; "b.txt"] 9000);
             (("5.6.7.8", 40000%Z), Register ["a.txt"] 9001)])
     = (Return true, s')
     ∧ list_remove "a.txt" ["a.txt"; "b.txt"] = Some l'
     ∧ hash_table_peer_files s' !! "1.2.3.4:9000" = Some l'
     ∧ length ["a.txt"; "b.txt"] = S (length l')
     ∧ "1.2.3.4:9000" ∉ peers_of s' "a.txt")
  ∧ (∃ s' l',
       update (mkUpdate "1.2.3.4:9000" "rm" ["a.txt"])
         (run [(("1.2.3.4", 40000%Z), Register ["a.txt"; "b.txt"] 9000);
               (("1.2.3.4", 40000%Z),
                Update (mkUpdate "1.2.3.4:9000" "add" ["a.txt"]))])
       = (Return true, s')
       ∧ list_remove "a.txt" ["a.txt"; "b.txt"; "a.txt"] = Some l'
       ∧ hash_table_peer_files s' !! "1.2.3.4:9000" = Some l'
       ∧ length ["a.txt"; "b.txt"; "a.txt"] = S (length l')
       ∧ (NoDup
            (peers_of
               (run [(("1.2.3.4", 40000%Z),
                      Register ["a.txt"; "b.txt"] 9000);
                     (("1.2.3.4", 40000%Z),
                      Update (mkUpdate "1.2.3.4:9000" "add" ["a.txt"]))])
               "a.txt") →
          "1.2.3.4:9000" ∉ peers_of s' "a.txt")).
Proof.
  split.
  - destruct (update_rm_unlists_peer "1.2.3.4:9000" "a.txt"
                ["a.txt"; "b.txt"]
                (run [(("1.2.3.4", 40000%Z),
                       Register ["a.txt"; "b.txt"] 9000);
                      (("5.6.7.8", 40000%Z), Register ["a.txt"] 9001)]))
      as (s' & l' & Hret & Hrm & Hentry & Hlen & Hunlisted).
    + vm_compute. reflexivity.
    + apply list_elem_of_here.
    + exists s', l'.
      split; [done|]. split; [done|]. split; [done|]. split; [done|].
      apply Hunlisted.
      assert (peers_of
                (run [(("1.2.3.4", 40000%Z),
                       Register ["a.txt"; "b.txt"] 9000);
                      (("5.6.7.8", 40000%Z), Register ["a.txt"] 9001)])
                "a.txt" = ["1.2.3.4:9000"; "5.6.7.8:9001"]) as ->
        by (vm_compute; reflexivity).
      apply NoDup_cons.
      split; [by intros [=]%list_elem_of_singleton|apply NoDup_singleton].
  - apply (update_rm_unlists_peer "1.2.3.4:9000" "a.txt"
             ["a.txt"; "b.txt"; "a.txt"]
             (run [(("1.2.3.4", 40000%Z), Register ["a.txt"; "b.txt"] 9000);
                   (("1.2.3.4", 40000%Z),
                    Update (mkUpdate "1.2.3.4:9000" "add" ["a.txt"]))])).
    + vm_compute. reflexivity.
    + apply list_elem_of_here.
Defined.

(** ** The peer ID *)

Lemma pretty_N_go_colon_free (x : N) (s : string) :
  colon_free s → colon_free (pretty_N_go x s).
Proof.
  revert s. induction (N.lt_wf_0 x) as [x _ IH]; intros s Hs.
  assert (x = 0 ∨ 0 < x)%N as [->|Hx] by lia.
  - by rewrite pretty_N_go_0.
  - rewrite pretty_N_go_step by done. apply IH; [by apply N.div_lt|].
    split; [|done]. unfold pretty_N_char. by repeat case_match.
Qed.

Lemma pretty_Z_colon_free (z : Z) : colon_free (pretty z).
Proof.
  destruct z as [|x|x]; unfold pretty, pretty_Z; [by split| |].
  - unfold pretty, pretty_positive, pretty, pretty_N.
    destruct (decide _); [by split|]. by apply pretty_N_go_colon_free.
  - split; [done|]. unfold pretty, pretty_positive, pretty, pretty_N.
    destruct (decide _); [by split|]. by apply pretty_N_go_colon_free.
Qed.

Lemma colon_free_app_colon (s1 s2 : string) :
  ¬ colon_free (s1 +:+ ":" +:+ s2).
Proof.
  change (":" +:+ s2) with (String ":" s2).
  induction s1 as [|c s1 IH]; [by intros [? _]|by intros [_ ?]].
Qed.

(** The last colon of a peer ID splits it: what follows has no colon. *)
Lemma colon_split_inj (a1 a2 d1 d2 : string) :
  colon_free d1 → colon_free d2 →
  a1 +:+ ":" +:+ d1 = a2 +:+ ":" +:+ d2 → a1 = a2 ∧ d1 = d2.
Proof.
  intros Hd1 Hd2.
  change (":" +:+ d1) with (String ":" d1).
  change (":" +:+ d2) with (String ":" d2).
  revert a2. induction a1 as [|c a1 IH]; intros [|c' a2].
  - by intros [= ->].
  - intros [= <- ->]. by destruct (colon_free_app_colon a2 d2).
  - intros [= -> <-]. by destruct (colon_free_app_colon a1 d1).
  - intros [= -> Heq]. by destruct (IH a2 Heq) as [-> ->].
Qed.

Lemma peer_id_eq (addr1 addr2 : string * Z) (port1 port2 : Z) :
  make_peer_id addr1 port1 = make_peer_id addr2 port2 →
  addr1.1 = addr2.1 ∧ port1 = port2.
Proof.
  unfold make_peer_id.
  intros [Haddr Hport]%colon_split_inj; [|apply pretty_Z_colon_free..].
  split; [done|]. by apply (inj pretty).
Qed.

(** X13: the peer ID tells the source address and the port apart: two
    registrations get the same peer ID exactly when they come with the
    same source address and the same peer port. *)
Theorem make_peer_id_inj (addr1 addr2 : string * Z) (port1 port2 : Z) :
  make_peer_id addr1 port1 = make_peer_id addr2 port2
  ↔ addr1.1 = addr2.1 ∧ port1 = port2.
Proof.
  split; [apply peer_id_eq|]. unfold make_peer_id. by intros [-> ->].
Qed.

(** X14: [hash_table_ports_peers] is keyed by the port alone: when two
    peers at different addresses register the same port, both get their
    own entry in [hash_table_peer_files], but the port is mapped to the
    address of the one that registered last. *)
Theorem registry_same_port_overwrites (addr1 addr2 : string * Z)
    (files1 files2 : list string) (peer_port : Z) (s : ServerOperations) :
  addr1.1 ≠ addr2.1 →
  hash_table_ports_peers
    (registry addr2 files2 peer_port
       (registry addr1 files1 peer_port s).2).2 !! peer_port
  = Some addr2.1
  ∧ hash_table_peer_files
      (registry addr2 files2 peer_port
         (registry addr1 files1 peer_port s).2).2
      !! make_peer_id addr1 peer_port = Some files1
  ∧ hash_table_peer_files
      (registry addr2 files2 peer_port
         (registry addr1 files1 peer_port s).2).2
      !! make_peer_id addr2 peer_port = Some files2.
Proof.
  intros Haddr. rewrite !registry_spec. simpl.
  split; [apply lookup_insert_eq|]. split; [|apply lookup_insert_eq].
  rewrite lookup_insert_ne; [apply lookup_insert_eq|].
  by intros [? _]%peer_id_eq.
Qed.

Lemma registry_same_port_overwrites_witness :
  hash_table_ports_peers
    (registry ("5.6.7.8", 40000%Z) ["b.txt"] 9000
       (registry ("1.2.3.4", 40000%Z) ["a.txt"] 9000 init).2).2 !! 9000%Z
  = Some ("5.6.7.8", 40000%Z).1
  ∧ hash_table_peer_files
      (registry ("5.6.7.8", 40000%Z) ["b.txt"] 9000
         (registry ("1.2.3.4", 40000%Z) ["a.txt"] 9000 init).2).2
      !! make_peer_id ("1.2.3.4", 40000%Z) 9000 = Some ["a.txt"]
  ∧ hash_table_peer_files
      (registry ("5.6.7.8", 40000%Z) ["b.txt"] 9000
         (registry ("1.2.3.4", 40000%Z) ["a.txt"] 9000 init).2).2
      !! make_peer_id ("5.6.7.8", 40000%Z) 9000 = Some ["b.txt"].
Proof.
  apply (registry_same_port_overwrites ("1.2.3.4", 40000%Z)
           ("5.6.7.8", 40000%Z) ["a.txt"] ["b.txt"] 9000 init).
  simpl. discriminate.
Defined.

(** ** Sequences of registrations *)

Lemma elem_of_appended (n : nat) (p q : string) (o : option (list string)) :
  q ∈ default [] (appended n p o) ↔ q ∈ default [] o ∨ (q = p ∧ 0 < n).
Proof.
  destruct n as [|n]; simpl.
  - split; [by left|]. intros [?|[_ ?]]; [done|lia].
  - rewrite elem_of_app, elem_of_cons, elem_of_replicate.
    split.
    + intros [?|[->|[-> _]]]; [by left|right..]; (split; [done|lia]).
    + intros [?|[-> _]]; [by left|]. right. by left.
Qed.

Lemma run_registrations_snoc (rs : list registration) (r : registration) :
  run (reg_connection <$> (rs ++ [r]))
  = (registry (reg_addr r) (reg_files r) (reg_port r)
       (run (reg_connection <$> rs))).2.
Proof.
  rewrite fmap_app.
  change (reg_connection <$> [r]) with [reg_connection r].
  by rewrite run_snoc.
Qed.

(** After a sequence of registrations a peer is listed under a file
    exactly when one of them, with that peer ID, named the file. *)
Lemma registrations_listed (rs : list registration) (p f : string) :
  p ∈ peers_of (run (reg_connection <$> rs)) f
  ↔ ∃ r, r ∈ rs ∧ reg_peer_id r = p ∧ f ∈ reg_files r.
Proof.
  induction rs as [|r rs IH] using rev_ind.
  - unfold peers_of, run. simpl. rewrite lookup_empty. split.
    + by intros ?%elem_of_nil.
    + by intros (r & ?%elem_of_nil & _).
  - rewrite run_registrations_snoc, registry_spec. unfold peers_of. simpl.
    rewrite lookup_add_peers, elem_of_appended.
    rewrite <-(occurrences_pos f (reg_files r)).
    fold (peers_of (run (reg_connection <$> rs)) f). rewrite IH. split.
    + intros [(r' & Hr' & Hid & Hf)|[-> Hf]].
      * exists r'. split; [|done]. apply elem_of_app. by left.
      * exists r. split; [|done]. apply elem_of_app. right.
        apply list_elem_of_here.
    + intros (r' & [Hr'|Hr']%elem_of_app & Hid & Hf).
      * left. by exists r'.
      * apply list_elem_of_singleton in Hr' as ->. by right.
Qed.

(** With pairwise different peer IDs, each peer's entry is the file list
    of its registration, and only registered peers have an entry. *)
Lemma registrations_entry (rs : list registration) (p : string) :
  NoDup (reg_peer_id <$> rs) →
  ∀ fl, hash_table_peer_files (run (reg_connection <$> rs)) !! p = Some fl
        ↔ ∃ r, r ∈ rs ∧ reg_peer_id r = p ∧ reg_files r = fl.
Proof.
  induction rs as [|r rs IH] using rev_ind; intros Hdup fl.
  - unfold run. simpl. rewrite lookup_empty. split; [done|].
    by intros (r & ?%elem_of_nil & _).
  - rewrite fmap_app in Hdup. apply NoDup_app in Hdup as (Hdup & Hr & _).
    rewrite run_registrations_snoc, registry_spec. simpl.
    fold (reg_peer_id r).
    destruct (decide (reg_peer_id r = p)) as [<-|Hne].
    + rewrite lookup_insert_eq. split.
      * intros [= <-]. exists r. split; [|done]. apply elem_of_app. right.
        apply list_elem_of_here.
      * intros (r' & [Hr'|Hr']%elem_of_app & Hid & <-).
        -- destruct (Hr (reg_peer_id r)); [|apply list_elem_of_here].
           rewrite <-Hid. by apply list_elem_of_fmap_2.
        -- by apply list_elem_of_singleton in Hr' as ->.
    + rewrite lookup_insert_ne by done. rewrite (IH Hdup). split.
      * intros (r' & Hr' & Hid & Hfl). exists r'. split; [|done].
        apply elem_of_app. by left.
      * intros (r' & [Hr'|Hr']%elem_of_app & Hid & Hfl); [by exists r'|].
        apply list_elem_of_singleton in Hr' as ->. done.
Qed.

Lemma registrations_same_id (rs : list registration) (r r' : registration) :
  NoDup (reg_peer_id <$> rs) → r ∈ rs → r' ∈ rs →
  reg_peer_id r = reg_peer_id r' → reg_files r = reg_files r'.
Proof.
  intros Hdup Hr Hr' Hid.
  pose proof (registrations_entry rs (reg_peer_id r) Hdup) as Hentry.
  assert (hash_table_peer_files (run (reg_connection <$> rs))
            !! reg_peer_id r = Some (reg_files r)) as H1
    by (apply Hentry; by exists r).
  assert (hash_table_peer_files (run (reg_connection <$> rs))
            !! reg_peer_id r = Some (reg_files r')) as H2
    by (apply Hentry; by exists r').
  congruence.
Qed.

(** X15: registrations of peers with pairwise different peer IDs, served
    in any order from the empty index, leave the two tables mirroring each
    other: every peer is registered with exactly the files of its request,
    and a file is in a peer's entry exactly when the peer is listed under
    the file.  When no request comes with an empty file list, neither
    table holds an empty list. *)
Theorem distinct_registrations_mirrored (rs : list registration) :
  NoDup (reg_peer_id <$> rs) →
  (∀ r, r ∈ rs →
     registered_with (run (reg_connection <$> rs))
       (reg_peer_id r) (reg_files r))
  ∧ mirrored (run (reg_connection <$> rs))
  ∧ ((∀ r, r ∈ rs → reg_files r ≠ []) →
     index_invariant (run (reg_connection <$> rs))).
Proof.
  intros Hdup.
  assert (mirrored (run (reg_connection <$> rs))) as Hmirror.
  { intros p f. rewrite registrations_listed. unfold files_of.
    destruct (hash_table_peer_files (run (reg_connection <$> rs)) !! p)
      as [fl|] eqn:Hp; simpl.
    - apply (registrations_entry rs p Hdup) in Hp as (r & Hr & Hid & <-).
      split; [intros Hf; by exists r|].
      intros (r' & Hr' & Hid' & Hf).
      rewrite (registrations_same_id rs r r'); [done..|congruence].
    - split; [by intros ?%elem_of_nil|].
      intros (r & Hr & Hid & _).
      assert (hash_table_peer_files (run (reg_connection <$> rs)) !! p
              = Some (reg_files r)) as Hp'
        by (apply (registrations_entry rs p Hdup); by exists r).
      congruence. }
  split; [|split; [done|]].
  - intros r Hr. split.
    + apply (registrations_entry rs _ Hdup). by exists r.
    + intros f. rewrite registrations_listed. split.
      * intros (r' & Hr' & Hid & Hf).
        by rewrite (registrations_same_id rs r r').
      * intros Hf. by exists r.
  - intros Hfiles. split; [done|]. split; [apply run_files_nonempty|].
    intros p Hp.
    apply (registrations_entry rs p Hdup) in Hp as (r & Hr & _ & Hfl).
    by apply (Hfiles r).
Qed.

Lemma distinct_registrations_mirrored_witness :
  (∀ r, r ∈ [mkRegistration ("1.2.3.4", 40000%Z) ["x"] 9000;
             mkRegistration ("5.6.7.8", 40000%Z) ["y"] 9000] →
     registered_with
       (run (reg_connection
               <$> [mkRegistration ("1.2.3.4", 40000%Z) ["x"] 9000;
                    mkRegistration ("5.6.7.8", 40000%Z) ["y"] 9000]))
       (reg_peer_id r) (reg_files r))
  ∧ mirrored
      (run (reg_connection
              <$> [mkRegistration ("1.2.3.4", 40000%Z) ["x"] 9000;
                   mkRegistration ("5.6.7.8", 40000%Z) ["y"] 9000]))
  ∧ ((∀ r, r ∈ [mkRegistration ("1.2.3.4", 40000%Z) ["x"] 9000;
                mkRegistration ("5.6.7.8", 40000%Z) ["y"] 9000] →
        reg_files r ≠ []) →
     index_invariant
       (run (reg_connection
               <$> [mkRegistration ("1.2.3.4", 40000%Z) ["x"] 9000;
                    mkRegistration ("5.6.7.8", 40000%Z) ["y"] 9000]))).
Proof.
  apply (distinct_registrations_mirrored
           [mkRegistration ("1.2.3.4", 40000%Z) ["x"] 9000;
            mkRegistration ("5.6.7.8", 40000%Z) ["y"] 9000]).
  assert (reg_peer_id
            <$> [mkRegistration ("1.2.3.4", 40000%Z) ["x"] 9000;
                 mkRegistration ("5.6.7.8", 40000%Z) ["y"] 9000]
          = ["1.2.3.4:9000"; "5.6.7.8:9000"]) as ->
    by (vm_compute; reflexivity).
  apply NoDup_cons.
  split; [by intros [=]%list_elem_of_singleton|apply NoDup_singleton].
Defined.

(** ** Register, then search or deregister *)

(** X16: after a registration, a search for any file of the request
    returns a list whose last element is the registering peer, and the
    file is among the names that [list_files_index_server] returns. *)
Theorem registry_then_search_finds_peer (addr : string * Z)
    (files : list string) (peer_port : Z) (s : ServerOperations)
    (f : string) :
  f ∈ files →
  (∃ l, (search f (registry addr files peer_port s).2).1 = Return (Some l)
        ∧ last l = Some (make_peer_id addr peer_port))
  ∧ (∃ names,
       (list_files_index_server (registry addr files peer_port s).2).1
       = Return (Some names)
       ∧ f ∈ names).
Proof.
  intros Hf. apply occurrences_pos in Hf.
  assert (hash_table_files (registry addr files peer_port s).2 !! f
          = Some (default [] (hash_table_files s !! f)
                  ++ replicate (occurrences f files)
                       (make_peer_id addr peer_port))) as Hentry.
  { rewrite registry_spec. simpl. rewrite lookup_add_peers.
    destruct (occurrences f files); [lia|done]. }
  split.
  - eexists. rewrite search_spec. split; [done|]. unfold peers_of.
    rewrite Hentry. simpl.
    destruct (occurrences f files) as [|n]; [lia|].
    rewrite replicate_S_end, app_assoc. apply last_snoc.
  - eexists. split; [done|]. apply list_elem_of_fmap.
    eexists (f, _). split; [done|]. by apply elem_of_map_to_list.
Qed.

Lemma registry_then_search_finds_peer_witness :
  (∃ l, (search "b.txt"
           (registry ("1.2.3.4", 40000%Z) ["a.txt"; "b.txt"] 9000 init).2).1
        = Return (Some l)
        ∧ last l = Some (make_peer_id ("1.2.3.4", 40000%Z) 9000))
  ∧ (∃ names,
       (list_files_index_server
          (registry ("1.2.3.4", 40000%Z) ["a.txt"; "b.txt"] 9000 init).2).1
       = Return (Some names)
       ∧ "b.txt" ∈ names).
Proof.
  apply (registry_then_search_finds_peer ("1.2.3.4", 40000%Z)
           ["a.txt"; "b.txt"] 9000 init "b.txt").
  apply list_elem_of_further, list_elem_of_here.
Defined.

Lemma occurrences_NoDup (f : string) (files : list string) :
  NoDup files → occurrences f files ≤ 1.
Proof.
  unfold occurrences. induction 1 as [|g files Hg Hdup IH]; [simpl; lia|].
  rewrite filter_cons. destruct (decide (g = f)) as [->|Hne]; [|done].
  simpl.
  destruct (filter (λ g, g = f) files) as [|x l] eqn:E; [simpl; lia|].
  assert (x ∈ filter (λ g, g = f) files) as Hx
    by (rewrite E; apply list_elem_of_here).
  apply list_elem_of_filter in Hx as [-> ?]. done.
Qed.

(** What a round on [f] leaves under [f] depends on the entry of [f]
    alone. *)
Lemma drop_peer_lookup_eq (p f : string) (m m' : gmap string (list string)) :
  m !! f = m' !! f → drop_peer p m f !! f = drop_peer p m' f !! f.
Proof.
  intros Hf. unfold drop_peer. rewrite <-Hf.
  destruct (m !! f) as [[|x l]|] eqn:E; [by rewrite E| |by rewrite E].
  destruct (drop_scan (length (x :: l)) 0 p (x :: l)); simpl.
  - by rewrite !lookup_delete_eq.
  - by rewrite !lookup_insert_eq.
Qed.

Lemma drop_peers_NoDup_lookup (p f : string) (files : list string)
    (m : gmap string (list string)) :
  NoDup files → f ∈ files →
  foldl (drop_peer p) m files !! f = drop_peer p m f !! f.
Proof.
  intros Hdup. revert m. induction Hdup as [|g files Hg Hdup IH]; intros m.
  - by intros ?%elem_of_nil.
  - intros [->|Hf]%elem_of_cons; simpl.
    + by apply drop_peers_other_file.
    + rewrite IH by done. apply drop_peer_lookup_eq.
      assert (g ≠ f) as Hne by by intros ->.
      unfold drop_peer. destruct (m !! g) as [[|x l]|]; [done| |done].
      destruct (drop_scan (length (x :: l)) 0 p (x :: l)); simpl.
      * by rewrite lookup_delete_ne.
      * by rewrite lookup_insert_ne.
Qed.

(** X17: a deregistration undoes a registration.  When a peer that the
    tables do not know (no entry, listed nowhere, its port no key)
    registers a file list without repetitions, on tables where no file is
    mapped to an empty list, and then deregisters with the same peer ID,
    port and file list, [deregistry] returns [True] and the three tables
    are what they were before the registration. *)
Theorem registry_then_deregistry_restores (addr : string * Z)
    (files : list string) (peer_port : Z) (s : ServerOperations) :
  hash_table_ports_peers s !! peer_port = None →
  hash_table_peer_files s !! make_peer_id addr peer_port = None →
  (∀ f, make_peer_id addr peer_port ∉ peers_of s f) →
  files_nonempty s →
  NoDup files →
  deregistry (mkDeregister (make_peer_id addr peer_port) peer_port files)
    (registry addr files peer_port s).2
  = (Return true, s).
Proof.
  intros Hport Hpeer Hfresh Hne Hdup.
  rewrite deregistry_spec, registry_spec. simpl.
  rewrite !delete_insert_id by done.
  destruct s as [pp m pf]. simpl in *. do 2 f_equal.
  apply map_eq. intros f. destruct (decide (f ∈ files)) as [Hf|Hf].
  - rewrite drop_peers_NoDup_lookup by done.
    rewrite (drop_peer_lookup_eq _ _ _
               (add_peer (make_peer_id addr peer_port) f m)).
    + rewrite drop_peer_add_peer; [done|apply Hne|apply Hfresh].
    + rewrite lookup_add_peers, lookup_add_peer, decide_True by done.
      pose proof (occurrences_NoDup f files Hdup).
      apply occurrences_pos in Hf.
      by replace (occurrences f files) with 1 by lia.
  - rewrite drop_peers_other_file by done. rewrite lookup_add_peers.
    destruct (occurrences f files) as [|n] eqn:E; [done|].
    destruct Hf. apply occurrences_pos. lia.
Qed.

Lemma registry_then_deregistry_restores_witness :
  deregistry
    (mkDeregister (make_peer_id ("5.6.7.8", 40000%Z) 9001) 9001
       ["a.txt"; "c.txt"])
    (registry ("5.6.7.8", 40000%Z) ["a.txt"; "c.txt"] 9001
       (run [(("1.2.3.4", 40000%Z), Register ["a.txt"] 9000)])).2
  = (Return true, run [(("1.2.3.4", 40000%Z), Register ["a.txt"] 9000)]).
Proof.
  apply (registry_then_deregistry_restores ("5.6.7.8", 40000%Z)
           ["a.txt"; "c.txt"] 9001
           (run [(("1.2.3.4", 40000%Z), Register ["a.txt"] 9000)])).
  - vm_compute. reflexivity.
  - vm_compute. reflexivity.
  - intros f Hin.
    apply (registrations_listed
             [mkRegistration ("1.2.3.4", 40000%Z) ["a.txt"] 9000]) in Hin
      as (r & ->%list_elem_of_singleton & Hid & _).
    vm_compute in Hid. discriminate.
  - apply run_files_nonempty.
  - apply NoDup_cons.
    split; [by intros [=]%list_elem_of_singleton|apply NoDup_singleton].
Defined.

(** ** The removal loop again *)

(** X18: the removal loop of lines 109-113 and 163-167 stops after at most
    as many rounds as the entry is long when the loop starts: run with any
    larger bound on the rounds, the iterator protocol gives the same
    outcome and the same tables. *)
Theorem removal_loop_bound (f target : string) (l : list string) (k : nat)
    (s : ServerOperations) :
  hash_table_files s !! f = Some l →
  for_live_entry (length l + k) 0 f (drop_if_equal f target) s
  = for_live_entry (length l) 0 f (drop_if_equal f target) s.
Proof. apply for_live_entry_fuel. Qed.

Lemma removal_loop_bound_witness :
  for_live_entry (length ["1.2.3.4:9000"; "1.2.3.4:9000"] + 5) 0 "a.txt"
    (drop_if_equal "a.txt" "1.2.3.4:9000")
    (run [(("1.2.3.4", 40000%Z), Register ["a.txt"] 9000);
          (("1.2.3.4", 40001%Z), Register ["a.txt"] 9000)])
  = for_live_entry (length ["1.2.3.4:9000"; "1.2.3.4:9000"]) 0 "a.txt"
      (drop_if_equal "a.txt" "1.2.3.4:9000")
      (run [(("1.2.3.4", 40000%Z), Register ["a.txt"] 9000);
            (("1.2.3.4", 40001%Z), Register ["a.txt"] 9000)]).
Proof.
  apply (removal_loop_bound "a.txt" "1.2.3.4:9000"
           ["1.2.3.4:9000"; "1.2.3.4:9000"] 5
           (run [(("1.2.3.4", 40000%Z), Register ["a.txt"] 9000);
                 (("1.2.3.4", 40001%Z), Register ["a.txt"] 9000)])).
  vm_compute. reflexivity.
Defined.

(** A scan that has not met the peer yet removes at least one of its
    occurrences. *)
Lemma drop_scan_shorter (fuel i : nat) (target : string) (l : list string) :
  target ∈ l → target ∉ take i l → length l ≤ fuel + i →
  length (drop_scan fuel i target l) < length l.
Proof.
  revert i. induction fuel as [|fuel IH]; intros i Hin Htake Hlen.
  - by rewrite take_ge in Htake by lia.
  - simpl. destruct (l !! i) as [x|] eqn:Hx.
    + destruct (decide (x = target)) as [->|Hne].
      * destruct (list_remove_elem target l Hin) as [l1 Hl1]. rewrite Hl1.
        pose proof (sublist_length _ _ (drop_scan_sublist fuel (S i) target l1)).
        apply list_remove_length in Hl1. lia.
      * apply IH; [done| |lia]. rewrite (take_S_r l i x Hx).
        apply not_elem_of_app. split; [done|].
        by intros ->%list_elem_of_singleton.
    + apply lookup_ge_None in Hx. by rewrite take_ge in Htake by lia.
Qed.

(** X19: a deregistration takes away at least one occurrence of the peer
    from the entry of every file of the request under which the peer is
    listed: that entry gets strictly shorter, whether or not it lists the
    peer more than once. *)
Theorem deregistry_shortens_entry (pd : peer_data) (s : ServerOperations)
    (f : string) :
  f ∈ pd_files pd → pd_peer_id pd ∈ peers_of s f →
  length (peers_of (deregistry pd s).2 f) < length (peers_of s f).
Proof.
  intros Hf Hin. rewrite deregistry_spec. unfold peers_of in *. simpl.
  revert Hin. generalize (hash_table_files s).
  induction (pd_files pd) as [|g files IH]; intros m Hin;
    [by apply elem_of_nil in Hf|].
  simpl. destruct (decide (g = f)) as [->|Hne].
  - pose proof (sublist_length _ _
      (drop_peers_sublist (pd_peer_id pd) f files
         (drop_peer (pd_peer_id pd) m f))) as Hsub.
    rewrite lookup_drop_peer, decide_True in Hsub by done.
    pose proof (drop_scan_shorter (length (default [] (m !! f))) 0
      (pd_peer_id pd) (default [] (m !! f)) Hin) as Hshort.
    specialize (Hshort ltac:(apply not_elem_of_nil) ltac:(lia)). lia.
  - apply elem_of_cons in Hf as [?|Hf]; [done|].
    specialize (IH Hf (drop_peer (pd_peer_id pd) m g)).
    rewrite lookup_drop_peer, decide_False in IH by done. by apply IH.
Qed.

Lemma deregistry_shortens_entry_witness :
  length
    (peers_of
       (deregistry (mkDeregister "1.2.3.4:9000" 9000 ["a.txt"])
          (run [(("1.2.3.4", 40000%Z), Register ["a.txt"] 9000);
                (("1.2.3.4", 40001%Z), Register ["a.txt"] 9000)])).2
       "a.txt")
  < length
      (peers_of
         (run [(("1.2.3.4", 40000%Z), Register ["a.txt"] 9000);
               (("1.2.3.4", 40001%Z), Register ["a.txt"] 9000)])
         "a.txt").
Proof.
  apply (deregistry_shortens_entry
           (mkDeregister "1.2.3.4:9000" 9000 ["a.txt"])
           (run [(("1.2.3.4", 40000%Z), Register ["a.txt"] 9000);
                 (("1.2.3.4", 40001%Z), Register ["a.txt"] 9000)])
           "a.txt").
  - apply list_elem_of_here.
  - assert (peers_of
              (run [(("1.2.3.4", 40000%Z), Register ["a.txt"] 9000);
                    (("1.2.3.4", 40001%Z), Register ["a.txt"] 9000)])
              "a.txt" = ["1.2.3.4:9000"; "1.2.3.4:9000"]) as ->
      by (vm_compute; reflexivity).
    apply list_elem_of_here.
Defined.

(** ** Who the tables know *)

Lemma update_unknown_peer_state (pu : peer_update) (s : ServerOperations) :
  hash_table_peer_files s !! pu_peer_id pu = None → (update pu s).2 = s.
Proof.
  intros Hp.
  destruct (decide (pu_task pu = "add")) as [Hadd|Hadd];
    [by rewrite update_unknown_peer by auto|].
  destruct (decide (pu_task pu = "rm")) as [Hrm|Hrm];
    [by rewrite update_unknown_peer by auto|].
  unfold update, try_except. by rewrite !decide_False by done.
Qed.

Lemma serve_known_peer (s : ServerOperations) (c : (string * Z) * request)
    (p : string) :
  known_peer (serve s c) p → known_peer s p ∨ registered_id c = Some p.
Proof.
  destruct c as [addr [files peer_port|pu| |file_name|pd]];
    unfold serve, registered_id; simpl.
  - destruct (decide (p = make_peer_id addr peer_port)) as [->|Hne];
      [by right|].
    rewrite registry_spec. intros [Hentry|[f Hf]]; left.
    + left. simpl in Hentry. by rewrite lookup_insert_ne in Hentry.
    + right. exists f. unfold peers_of in *. simpl in Hf.
      rewrite lookup_add_peers in Hf. by apply appended_other in Hf.
  - intros Hknown. left.
    destruct (decide (p = pu_peer_id pu)) as [->|Hne].
    + destruct (hash_table_peer_files s !! pu_peer_id pu) eqn:Hp;
        [left; by eexists|].
      by rewrite update_unknown_peer_state in Hknown.
    + destruct (update_others_kept pu s s) as (_ & Hpeers & Hlisted);
        [done|].
      destruct Hknown as [Hentry|[f Hf]].
      * left. by rewrite <-(Hpeers p Hne).
      * right. exists f. by apply (Hlisted p f Hne).
  - by left.
  - rewrite search_spec. by left.
  - rewrite deregistry_spec. intros [[l Hentry]|[f Hf]]; left.
    + left. simpl in Hentry. apply lookup_delete_Some in Hentry as [_ ?].
      by eexists.
    + right. exists f. unfold peers_of in *. simpl in Hf.
      eapply elem_of_sublist; [done|apply drop_peers_sublist].
Qed.

(** X20: the tables know only peers that registered.  In every state the
    server reaches, a peer ID that has an entry in [hash_table_peer_files]
    or is listed under some file of [hash_table_files] is the peer ID of a
    register request that was served: no update and no deregistration
    brings in a peer of its own. *)
Theorem only_registered_peers_known (cs : list ((string * Z) * request))
    (p : string) :
  known_peer (run cs) p → p ∈ registered_ids cs.
Proof.
  induction cs as [|c cs IH] using rev_ind.
  - unfold known_peer, peers_of, run. simpl. rewrite !lookup_empty.
    intros [[? [=]]|[f ?%elem_of_nil]]. done.
  - rewrite run_snoc. unfold registered_ids. rewrite omap_app.
    intros [Hknown|Hreg]%serve_known_peer; apply elem_of_app.
    + left. by apply IH.
    + right. simpl. rewrite Hreg. apply list_elem_of_here.
Qed.

Lemma only_registered_peers_known_witness :
  "1.2.3.4:9000"
  ∈ registered_ids
      [(("1.2.3.4", 40000%Z), Register ["a.txt"] 9000);
       (("1.2.3.4", 40001%Z),
        Update (mkUpdate "1.2.3.4:9000" "add" ["b.txt"]))].
Proof.
  apply (only_registered_peers_known
           [(("1.2.3.4", 40000%Z), Register ["a.txt"] 9000);
            (("1.2.3.4", 40001%Z),
             Update (mkUpdate "1.2.3.4:9000" "add" ["b.txt"]))]
           "1.2.3.4:9000").
  right. exists "b.txt".
  assert (peers_of
            (run [(("1.2.3.4", 40000%Z), Register ["a.txt"] 9000);
                  (("1.2.3.4", 40001%Z),
                   Update (mkUpdate "1.2.3.4:9000" "add" ["b.txt"]))])
            "b.txt" = ["1.2.3.4:9000"]) as -> by (vm_compute; reflexivity).
  apply list_elem_of_here.
Defined.
